(** * A shallow embedding of the syn lexer builder and registry

    The Go package [syn] (files lexer.go and registry.go) compiles a
    declarative grammar ([config.Lexer]) into a table of states, and keeps a
    registry of lexers.  The builder threads its errors through
    [mylog.Check] / [mylog.Check2], which abort by panicking, and
    [mylog.CheckIgnore], which only logs.  We model that with the result type
    [outcome]: a value, a panic carrying the error, or [OutOfFuel] for the
    unbounded recursion of include resolution. *)

From Stdlib Require Import String Ascii.
From stdpp Require Import base gmap strings list sorting.

(* ------------------------------------------------------------------ *)
(** ** Results: return, panic (mylog.Check), or recursion without end *)

Inductive error : Type :=
| ENoRoot                          (* "No 'root' state is defined" *)
| EMissingStates (l : list string) (* "The following states are referred to ... aren't defined" *)
| ENoPattern                       (* "Rule has no pattern, no include, no push and no pop" *)
| EPushAndPop
| ETokenAndInclude
| ETokenAndByGroups
| EIncludeAndByGroups
| ECombinedAndOther
| EInvalidPattern (pat : string)   (* regexp2.Compile failed *)
| EBadTokenType (typ : string)     (* TokenTypeString failed *)
| ECombinedMissing (stateName : string)
| EIncludeMissing (include : string)
| EBadGlob (glob : string).        (* filepath.ErrBadPattern *)

Inductive outcome (A : Type) : Type :=
| Ok (a : A)
| Panic (e : error)
| OutOfFuel.
Arguments Ok {A} a.
Arguments Panic {A} e.
Arguments OutOfFuel {A}.

Global Instance outcome_ret : MRet outcome := fun A a => Ok a.
Global Instance outcome_bind : MBind outcome := fun A B f m =>
  match m with
  | Ok a => f a
  | Panic e => Panic e
  | OutOfFuel => OutOfFuel
  end.

(** [mylog.Check]: a non-nil error panics. *)
Definition check (e : option error) : outcome unit :=
  match e with None => Ok tt | Some e => Panic e end.

(* ------------------------------------------------------------------ *)
(** ** The grammar configuration (package internal/config)

    The config package is not part of the sources at hand; its shape is
    the one lexer.go and registry.go read: every optional XML element is a
    Go pointer, modelled as an [option]. *)

Module config.

Inductive ByGroupsElement : Type :=
| BGToken (Type_ : string)
| BGUsingSelf (State : string)
| BGOther.

Record Rule : Type := mkRule {
  Pattern : string;
  Token : option string;                 (* <token type=...> *)
  Push : option string;                  (* <push state=...> *)
  Pop : option nat;                      (* <pop depth=...> *)
  Include : option string;               (* <include state=...> *)
  Combined : option (list string);       (* <combined state=... state=...> *)
  ByGroups : option (list ByGroupsElement);
  UsingSelf : option string
}.

Record State : Type := mkState { Name : string; Rules : list Rule }.

Record Config : Type := mkConfig {
  LexerName : string;
  Aliases : list string;
  Filenames : list string;
  MimeTypes : list string;
  Priority : Z
}.

Record Lexer : Type := mkLexer { LConfig : Config; States : list State }.

(** A rule with only a pattern; the other fields are filled by record update. *)
Definition rule0 (pat : string) : Rule :=
  mkRule pat None None None None None None None.

End config.

(* ------------------------------------------------------------------ *)
(** ** Token types

    Modelled from the spec: the TokenType enumeration and its generated
    parser [TokenTypeString] are not in the sources at hand; the spec
    describes TokenType as a closed enumeration (Text, Keyword, Number,
    String, Comment, Error, ...). *)

Inductive TokenType : Type :=
| Text | Keyword | Name | Number | String_ | StringDelim | Comment
| Punctuation | Operator | Error.

Global Instance TokenType_eq_dec : EqDecision TokenType.
Proof. solve_decision. Defined.

Definition TokenTypeString (s : string) : option TokenType :=
  if String.eqb s "Text" then Some Text
  else if String.eqb s "Keyword" then Some Keyword
  else if String.eqb s "Name" then Some Name
  else if String.eqb s "Number" then Some Number
  else if String.eqb s "String" then Some String_
  else if String.eqb s "StringDelim" then Some StringDelim
  else if String.eqb s "Comment" then Some Comment
  else if String.eqb s "Punctuation" then Some Punctuation
  else if String.eqb s "Operator" then Some Operator
  else if String.eqb s "Error" then Some Error
  else None.

(* ------------------------------------------------------------------ *)
(** ** Compiled rules and the state table

    [rule], [byGroupElement] and [state] are the Go structs whose fields
    lexer.go sets; a Go zero value ("" or 0 or an absent token) is the
    field's default here. *)

(** A compiled regexp2.Regexp: the source it was compiled from, the
    option it was compiled with and its MatchTimeout in milliseconds
    ([None]: regexp2's default, no timeout). *)
Record Regexp : Type := mkRegexp {
  re_expr : string;
  re_multiline : bool;
  MatchTimeout : option nat
}.

Record byGroupElement : Type := mkByGroupElement {
  ge_tok : option TokenType;
  ge_useSelfState : string
}.

Record rule : Type := mkRuleS {
  pattern : option Regexp;
  tok : option TokenType;
  pushState : string;
  popDepth : nat;
  include : string;
  byGroups : list byGroupElement;
  useSelfState : string
}.

Definition rule_zero : rule := mkRuleS None None "" 0 "" [] "".

Record state : Type := mkStateS { name : string; rules : list rule }.

(** The builder's table of states, Go's [map[string]state]. *)
Abbreviation rulesTable := (gmap string state).

(** Modelled from the spec: the [rules] container (newRules, AddState,
    Get, Contains) is not in the sources at hand; the spec's State Table is
    a mapping from state name to state, and AddState stores a state under
    its name. *)
Definition AddState (s : state) (t : rulesTable) : rulesTable := <[name s := s]> t.

Record Lexer : Type := mkLexerS { lconfig : config.Lexer; lrules : rulesTable }.

(** Setters for the fields lexer.go assigns one by one. *)
Definition set_pushState (r : rule) (s : string) : rule :=
  mkRuleS (pattern r) (tok r) s (popDepth r) (include r) (byGroups r) (useSelfState r).
Definition set_tok (r : rule) (t : TokenType) : rule :=
  mkRuleS (pattern r) (Some t) (pushState r) (popDepth r) (include r) (byGroups r) (useSelfState r).
Definition set_popDepth (r : rule) (d : nat) : rule :=
  mkRuleS (pattern r) (tok r) (pushState r) d (include r) (byGroups r) (useSelfState r).
Definition set_include (r : rule) (s : string) : rule :=
  mkRuleS (pattern r) (tok r) (pushState r) (popDepth r) s (byGroups r) (useSelfState r).
Definition set_byGroups (r : rule) (g : list byGroupElement) : rule :=
  mkRuleS (pattern r) (tok r) (pushState r) (popDepth r) (include r) g (useSelfState r).
Definition set_useSelfState (r : rule) (s : string) : rule :=
  mkRuleS (pattern r) (tok r) (pushState r) (popDepth r) (include r) (byGroups r) s.

(* ------------------------------------------------------------------ *)
(** ** The lexer builder (lexer.go, lines 101-388) *)

Section Builder.

(** Whether regexp2.Compile accepts a pattern (with the Multiline option);
    the regex engine is an external library, so the builder is stated for
    every choice of it. *)
Variable regexp2_accepts : string -> bool.

Definition regexp2_Compile (pat : string) : outcome Regexp :=
  if regexp2_accepts pat then Ok (mkRegexp pat true None)
  else Panic (EInvalidPattern pat).

(** A Go pointer compared with nil. *)
Definition isNil {A} (o : option A) : bool := match o with None => true | Some _ => false end.
Definition notNil {A} (o : option A) : bool := negb (isNil o).

Definition mem (x : string) (l : list string) : bool :=
  existsb (String.eqb x) l.

(** lexerBuilder.makeMissingError *)
Definition makeMissingError (missing : list string) : option error :=
  match missing with [] => None | _ => Some (EMissingStates missing) end.

(** lexerBuilder.validate *)
Definition validate (cfg : config.Lexer) : option error :=
  let states := config.States cfg in
  let foundRoot := existsb (fun s => String.eqb (config.Name s) "root") states in
  if negb foundRoot then Some ENoRoot
  else
    let stateNames := map config.Name states in
    let missing :=
      flat_map (fun st =>
        flat_map (fun cr =>
          match config.Push cr with
          | None => []
          | Some p =>
              if String.eqb p "" then []
              else if mem p stateNames then [] else [p]
          end) (config.Rules st)) states in
    makeMissingError missing.

(** lexerBuilder.checkRule *)
Definition checkRule (r : config.Rule) : option error :=
  if String.eqb (config.Pattern r) "" && isNil (config.Push r)
     && isNil (config.Pop r) && isNil (config.Include r)
  then Some ENoPattern
  else if notNil (config.Pop r) && notNil (config.Push r) then Some EPushAndPop
  else if notNil (config.Token r) && notNil (config.Include r) then Some ETokenAndInclude
  else if notNil (config.Token r) && notNil (config.ByGroups r) then Some ETokenAndByGroups
  else if notNil (config.Include r) && notNil (config.ByGroups r) then Some EIncludeAndByGroups
  else if notNil (config.Combined r)
          && (notNil (config.Push r) || notNil (config.Pop r) || notNil (config.Include r))
  then Some ECombinedAndOther
  else None.

(** lexerBuilder.makeRule: the pattern is anchored with \A, compiled
    with regexp2.Multiline, and given a 250ms MatchTimeout. *)
Definition makeRule (pat : string) : outcome rule :=
  re ← regexp2_Compile (String.append "\A" pat);
  mret (mkRuleS (Some (mkRegexp (re_expr re) (re_multiline re) (Some 250)))
          None "" 0 "" [] "").

(** lexerBuilder.combinedStateName *)
Definition combinedStateName (states : list string) : string :=
  String.append "__combined_" (String.concat "__" states).

(** lexerBuilder.updatePushForCombinedState *)
Definition updatePushForCombinedState (r : rule) (cr : config.Rule) : rule :=
  match config.Combined cr with
  | None => r
  | Some c => set_pushState r (combinedStateName c)
  end.

Definition tokenTypeString (t : string) : outcome TokenType :=
  match TokenTypeString t with Some typ => Ok typ | None => Panic (EBadTokenType t) end.

(** The loop over ByGroups elements in setRuleFieldsFrom. *)
Fixpoint byGroupElements (es : list config.ByGroupsElement) : outcome (list byGroupElement) :=
  match es with
  | [] => mret []
  | config.BGToken t :: es' =>
      typ ← tokenTypeString t;
      rest ← byGroupElements es';
      mret (mkByGroupElement (Some typ) "" :: rest)
  | config.BGUsingSelf s :: es' =>
      rest ← byGroupElements es';
      mret (mkByGroupElement None s :: rest)
  | config.BGOther :: es' =>
      rest ← byGroupElements es';
      mret (mkByGroupElement None "" :: rest)
  end.

(** lexerBuilder.setRuleFieldsFrom *)
Definition setRuleFieldsFrom (r : rule) (cr : config.Rule) : outcome rule :=
  r ← match config.Token cr with
      | Some t => typ ← tokenTypeString t; mret (set_tok r typ)
      | None => mret r
      end;
  let r := match config.Pop cr with Some d => set_popDepth r d | None => r end in
  let r := match config.Push cr with Some s => set_pushState r s | None => r end in
  let r := match config.Include cr with Some s => set_include r s | None => r end in
  r ← match config.ByGroups cr with
      | Some es => ges ← byGroupElements es; mret (set_byGroups r (byGroups r ++ ges))
      | None => mret r
      end;
  let r := match config.UsingSelf cr with Some s => set_useSelfState r s | None => r end in
  mret r.

(** lexerBuilder.ruleSequence *)
Fixpoint ruleSequence (crs : list config.Rule) : outcome (list rule) :=
  match crs with
  | [] => mret []
  | cr :: crs' =>
      _ ← check (checkRule cr);
      r ← makeRule (config.Pattern cr);
      let r := updatePushForCombinedState r cr in
      r ← setRuleFieldsFrom r cr;
      rest ← ruleSequence crs';
      mret (r :: rest)
  end.

(** The loop over the substates in createCombinedStateInRule. *)
Fixpoint combinedRules (t : rulesTable) (stateName : string) (subs : list string)
  : outcome (list rule) :=
  match subs with
  | [] => mret []
  | s :: subs' =>
      match t !! s with
      | None => Panic (ECombinedMissing stateName)
      | Some substate =>
          rest ← combinedRules t stateName subs';
          mret (rules substate ++ rest)
      end
  end.

(** lexerBuilder.createCombinedStateInRule *)
Definition createCombinedStateInRule (t : rulesTable) (stateName : string)
    (cr : config.Rule) : outcome rulesTable :=
  match config.Combined cr with
  | None => mret t
  | Some c =>
      let n := combinedStateName c in
      match t !! n with
      | Some _ => mret t
      | None =>
          rs ← combinedRules t stateName c;
          mret (AddState (mkStateS n rs) t)
      end
  end.

(** lexerBuilder.createCombinedStates *)
Fixpoint createCombinedStates (t : rulesTable) (stateName : string)
    (crs : list config.Rule) : outcome rulesTable :=
  match crs with
  | [] => mret t
  | cr :: crs' =>
      t ← createCombinedStateInRule t stateName cr;
      createCombinedStates t stateName crs'
  end.

(** The first loop of lexerBuilder.build: every configured state, with
    its compiled rules, is added to the table. *)
Fixpoint addStates (t : rulesTable) (sts : list config.State) : outcome rulesTable :=
  match sts with
  | [] => mret t
  | st :: sts' =>
      seq ← ruleSequence (config.Rules st);
      addStates (AddState (mkStateS (config.Name st) seq) t) sts'
  end.

(** The second loop of lexerBuilder.build. *)
Fixpoint addCombinedStates (t : rulesTable) (sts : list config.State) : outcome rulesTable :=
  match sts with
  | [] => mret t
  | st :: sts' =>
      t ← createCombinedStates t (config.Name st) (config.Rules st);
      addCombinedStates t sts'
  end.

(** lexerBuilder.build, starting from newRules()'s empty table. *)
Definition build (cfg : config.Lexer) : outcome rulesTable :=
  t ← addStates ∅ (config.States cfg);
  addCombinedStates t (config.States cfg).

(** lexerBuilder.resolveIncludesIn.  Each recursive call on an included
    state's rules takes one unit of [fuel]; the Go recursion has no bound,
    so running out of fuel at every fuel stands for non-termination. *)
Fixpoint resolveIncludesIn (fuel : nat) (t : rulesTable) (rs : list rule)
  : outcome (list rule) :=
  match fuel with
  | O => OutOfFuel
  | S fuel' =>
      (fix go (rs : list rule) : outcome (list rule) :=
         match rs with
         | [] => mret []
         | rl :: rs' =>
             if String.eqb (include rl) "" then
               rest ← go rs'; mret (rl :: rest)
             else
               match t !! include rl with
               | None => Panic (EIncludeMissing (include rl))
               | Some includeState =>
                   resolved ← resolveIncludesIn fuel' t (rules includeState);
                   rest ← go rs';
                   mret (resolved ++ rest)
               end
         end) rs
  end.

(** The loop of lexerBuilder.resolveIncludes over the table.  Go ranges
    over the map in an unspecified order; the model visits the entries in
    the order of [map_to_list].  Every entry is resolved against the table
    as it was before resolution, as in the Go code. *)
Fixpoint resolveEntries (fuel : nat) (t : rulesTable) (es : list (string * state))
  : outcome rulesTable :=
  match es with
  | [] => mret ∅
  | (n, st) :: es' =>
      l ← resolveIncludesIn fuel t (rules st);
      rest ← resolveEntries fuel t es';
      mret (<[n := mkStateS (name st) l]> rest)
  end.

(** lexerBuilder.resolveIncludes *)
Definition resolveIncludes (fuel : nat) (t : rulesTable) : outcome rulesTable :=
  resolveEntries fuel t (map_to_list t).

(** lexerBuilder.Build.  The first component is what mylog.CheckIgnore
    logs (validate's error); the second is how Build ends: a panic from
    mylog.Check, or the return of the lexer together with its error
    result, which is always nil. *)
Definition Build (fuel : nat) (cfg : config.Lexer)
  : list error * outcome (Lexer * option error) :=
  (match validate cfg with Some e => [e] | None => [] end,
   t ← build cfg;
   t' ← resolveIncludes fuel t;
   mret (mkLexerS cfg t', None)).

End Builder.

(* ------------------------------------------------------------------ *)
(** ** The lexer registry (registry.go) *)

(** The Go [Lexer] keeps its configuration; [cfg().Config] is its
    [LConfig]. *)
Definition cfgConfig (l : Lexer) : config.Config := config.LConfig (lconfig l).

Record LexerRegistry : Type := mkLexerRegistry {
  Lexers : list Lexer;
  byName : gmap string Lexer;
  byAlias : gmap string Lexer
}.

(** prioritisedLexers.Less: unset (zero) priority counts as 1, and the
    higher priority sorts first. *)
Definition effectivePriority (l : Lexer) : Z :=
  let p := config.Priority (cfgConfig l) in
  if Z.eqb p 0 then 1%Z else p.

Definition prioritisedLess (i j : Lexer) : bool :=
  Z.ltb (effectivePriority j) (effectivePriority i).

(** sort.Sort on prioritisedLexers followed by taking element 0: sort.Sort
    is not stable, so the model only fixes that the head has maximal
    priority, taking the list's first such lexer. *)
Fixpoint bestOf (best : Lexer) (ls : list Lexer) : Lexer :=
  match ls with
  | [] => best
  | l :: ls' => bestOf (if prioritisedLess l best then l else best) ls'
  end.

Definition slash : ascii := "/"%char.

Fixpoint dropSlashes (cs : list ascii) : list ascii :=
  match cs with
  | c :: cs' => if Ascii.eqb c slash then dropSlashes cs' else cs
  | [] => []
  end.

Fixpoint takeNonSlashes (cs : list ascii) : list ascii :=
  match cs with
  | c :: cs' => if Ascii.eqb c slash then [] else c :: takeNonSlashes cs'
  | [] => []
  end.

(** filepath.Base on a slash-separated path: trailing slashes are
    dropped, then the last element is kept; "" gives "." and a path of
    slashes only gives "/". *)
Definition filepath_Base (path : string) : string :=
  if String.eqb path "" then "."
  else
    match dropSlashes (rev (list_ascii_of_string path)) with
    | [] => "/"
    | rcs => string_of_list_ascii (rev (takeNonSlashes rcs))
    end.

Section Registry.

(** filepath.Match(glob, name): [Some b] is the match result and [None]
    is filepath.ErrBadPattern.  It is a library function, so the registry
    is stated for every glob matcher. *)
Variable filepath_Match : string -> string -> option bool.

(** The inner loop of Match over one lexer's filename globs: each
    result goes through mylog.Check2 and is then discarded. *)
Fixpoint checkGlobs (globs : list string) (filename : string) : outcome unit :=
  match globs with
  | [] => mret tt
  | g :: gs =>
      _ ← match filepath_Match g filename with
          | None => Panic (EBadGlob g)
          | Some _ => mret tt
          end;
      checkGlobs gs filename
  end.

Fixpoint checkLexers (ls : list Lexer) (filename : string) : outcome unit :=
  match ls with
  | [] => mret tt
  | l :: ls' =>
      _ ← checkGlobs (config.Filenames (cfgConfig l)) filename;
      checkLexers ls' filename
  end.

(** LexerRegistry.Match.  [matched] starts empty and nothing is appended
    to it in the loop. *)
Definition Match (reg : LexerRegistry) (filename : string) : outcome (option Lexer) :=
  let filename := filepath_Base filename in
  let matched : list Lexer := [] in
  _ ← checkLexers (Lexers reg) filename;
  match matched with
  | [] => mret None
  | l :: ls => mret (Some (bestOf l ls))
  end.

End Registry.

Section RegistryOps.

Variable filepath_Match : string -> string -> option bool.

(** strings.ToLower, a library function (Unicode case mapping): the
    registry is stated for every lower-casing function. *)
Variable strings_ToLower : string -> string.

(** NewLexerRegistry *)
Definition NewLexerRegistry : LexerRegistry := mkLexerRegistry [] ∅ ∅.

(** sort.Strings: ascending byte-wise order.  Go compares strings byte
    by byte, a proper prefix first, which is [String.compare]; the order
    is total and antisymmetric, so every sorting algorithm gives the same
    list. *)
Definition string_le (a b : string) : Prop := String.compare a b <> Gt.

Global Instance string_le_dec : RelDecision string_le.
Proof. intros a b. unfold string_le. solve_decision. Defined.

Definition sort_Strings (l : list string) : list string := merge_sort string_le l.

(** LexerRegistry.Names *)
Definition Names (reg : LexerRegistry) (withAliases : bool) : list string :=
  sort_Strings
    (flat_map (fun lexer =>
       let config := cfgConfig lexer in
       config.LexerName config :: (if withAliases then config.Aliases config else []))
     (Lexers reg)).

(** LexerRegistry.Get: the four map lookups, then the two Match calls,
    whose non-nil results are the candidates. *)
Definition Get (reg : LexerRegistry) (name : string) : outcome (option Lexer) :=
  match byName reg !! name with
  | Some lexer => mret (Some lexer)
  | None =>
  match byAlias reg !! name with
  | Some lexer => mret (Some lexer)
  | None =>
  match byName reg !! strings_ToLower name with
  | Some lexer => mret (Some lexer)
  | None =>
  match byAlias reg !! strings_ToLower name with
  | Some lexer => mret (Some lexer)
  | None =>
      byExt ← Match filepath_Match reg (String.append "filename." name);
      byExact ← Match filepath_Match reg name;
      let candidates :=
        match byExt with Some l => [l] | None => [] end ++
        match byExact with Some l => [l] | None => [] end in
      match candidates with
      | [] => mret None
      | l :: ls => mret (Some (bestOf l ls))
      end
  end end end end.

(** LexerRegistry.MatchMimeType: a lexer is appended once for every
    entry of its MimeTypes equal to [mimeType]. *)
Definition MatchMimeType (reg : LexerRegistry) (mimeType : string) : option Lexer :=
  let matched :=
    flat_map (fun l =>
      flat_map (fun lmt => if String.eqb mimeType lmt then [l] else [])
        (config.MimeTypes (cfgConfig l)))
      (Lexers reg) in
  match matched with
  | [] => None
  | l :: ls => Some (bestOf l ls)
  end.

(** The alias loop of LexerRegistry.Register. *)
Definition registerAliases (lexer : Lexer) (m : gmap string Lexer) (aliases : list string)
  : gmap string Lexer :=
  foldl (fun m alias => <[strings_ToLower alias := lexer]> (<[alias := lexer]> m)) m aliases.

(** LexerRegistry.Register: the updated registry and the returned lexer. *)
Definition Register (reg : LexerRegistry) (lexer : Lexer) : LexerRegistry * Lexer :=
  let config := cfgConfig lexer in
  let bn := <[strings_ToLower (config.LexerName config) := lexer]>
              (<[config.LexerName config := lexer]> (byName reg)) in
  let ba := registerAliases lexer (byAlias reg) (config.Aliases config) in
  (mkLexerRegistry (Lexers reg ++ [lexer]) bn ba, lexer).

End RegistryOps.

(* ------------------------------------------------------------------ *)
(** ** The tokenizer *)

Module Tokenizer.

(** Modelled from the spec: the tokenizer (newIterator and its iterator)
    is not in the sources at hand.  This follows the per-step algorithm of
    the spec's section 4.2, run over the state table the builder produces:
    at position [p] with top-of-stack state [S], the first rule of [S]
    whose anchored pattern matches is dispatched (ByGroups, UsingSelf, or
    Token followed by Push or Pop); when no rule matches, or a match makes
    no progress (zero length, stack unchanged), one Error token covering
    one character is emitted and [p] advances by one. *)
Record Token : Type := mkToken { ttype : TokenType; tstart : nat; tlen : nat }.

(** An anchored match at the scan position: its length and, for each
    capture group, its start (relative to the scan position) and length. *)
Record MatchResult : Type := mkMatch { mlen : nat; mgroups : list (nat * nat) }.

Section Tokenize.

(** Anchored matching of a compiled pattern at a position of the text;
    [None] is a non-match or a match timeout. *)
Variable regexp_match : Regexp -> list ascii -> nat -> option MatchResult.

Variable table : rulesTable.

Definition stateRules (s : string) : list rule :=
  match table !! s with Some st => rules st | None => [] end.

(** The first rule, in declared order, whose pattern matches at [p]. *)
Fixpoint firstMatch (rs : list rule) (text : list ascii) (p : nat)
  : option (rule * MatchResult) :=
  match rs with
  | [] => None
  | r :: rs' =>
      match pattern r with
      | Some re =>
          match regexp_match re text p with
          | Some m => Some (r, m)
          | None => firstMatch rs' text p
          end
      | None => firstMatch rs' text p
      end
  end.

(** Push (a state name, or #push for the current state) or Pop (depth
    entries, #pop one), never below one entry. *)
Definition applyPushPop (r : rule) (stk : list string) : list string :=
  if String.eqb (pushState r) "#pop" then drop (Nat.min 1 (length stk - 1)) stk
  else if String.eqb (pushState r) "#push" then
    match stk with top :: _ => top :: stk | [] => stk end
  else if negb (String.eqb (pushState r) "") then pushState r :: stk
  else if Nat.ltb 0 (popDepth r) then drop (Nat.min (popDepth r) (length stk - 1)) stk
  else stk.

Definition rebase (off : nat) (ts : list Token) : list Token :=
  map (fun t => mkToken (ttype t) (off + tstart t) (tlen t)) ts.

Definition substr (text : list ascii) (start len : nat) : list ascii :=
  take len (drop start text).

Definition list_string_eqb (a b : list string) : bool :=
  bool_decide (a = b).

(** The action of the matched rule [r] (match [m] at [p]) on the stack
    [stk]: the tokens it emits and the stack after it.  [sub s t] runs a
    nested session on the text [t] from the one-entry stack [[s]]
    (UsingSelf); [None] is a nested session that did not finish. *)
Definition action (sub : string -> list ascii -> option (list Token))
    (text : list ascii) (p : nat) (r : rule) (m : MatchResult) (stk : list string)
  : option (list Token * list string) :=
  if negb (bool_decide (byGroups r = [])) then
    toks ← (fix groups (ges : list byGroupElement) (gs : list (nat * nat))
              : option (list Token) :=
              match ges, gs with
              | ge :: ges', (gs0, gl) :: gs' =>
                  here ←
                    (if String.eqb (ge_useSelfState ge) "" then
                       match ge_tok ge with
                       | Some t => Some [mkToken t (p + gs0) gl]
                       | None => Some []
                       end
                     else
                       sub_toks ← sub (ge_useSelfState ge) (substr text (p + gs0) gl);
                       Some (rebase (p + gs0) sub_toks));
                  rest ← groups ges' gs';
                  Some (here ++ rest)
              | _, _ => Some []
              end) (byGroups r) (mgroups m);
    Some (toks, stk)
  else if negb (String.eqb (useSelfState r) "") then
    sub_toks ← sub (useSelfState r) (substr text p (mlen m));
    Some (rebase p sub_toks, stk)
  else
    Some (match tok r with
          | Some t => [mkToken t p (mlen m)]
          | None => []
          end, applyPushPop r stk).

Definition topState (stk : list string) : string :=
  match stk with s :: _ => s | [] => "root" end.

(** The session: [None] means the fuel ran out before the end of the
    text. *)
Fixpoint run (fuel : nat) (stk : list string) (text : list ascii) (p : nat)
  : option (list Token) :=
  match fuel with
  | O => None
  | S fuel' =>
      if Nat.leb (length text) p then Some []
      else
        let fallback :=
          rest ← run fuel' stk text (S p); Some (mkToken Error p 1 :: rest) in
        match firstMatch (stateRules (topState stk)) text p with
        | None => fallback
        | Some (r, m) =>
            match action (fun s t => run fuel' [s] t 0) text p r m stk with
            | None => None
            | Some (toks, stk') =>
                if Nat.eqb (mlen m) 0 && list_string_eqb stk' stk then fallback
                else rest ← run fuel' stk' text (p + mlen m); Some (toks ++ rest)
            end
        end
  end.

(** Tokenise: a fresh session seeded with the stack ["root"]. *)
Definition tokenise (fuel : nat) (text : list ascii) : option (list Token) :=
  run fuel ["root"] text 0.

(** A rule whose Push makes the stack grow. *)
Definition growing (r : rule) : bool :=
  negb (String.eqb (pushState r) "") && negb (String.eqb (pushState r) "#pop").

(** No rule of the table runs a nested session (UsingSelf, at rule level
    or in a ByGroups element). *)
Definition noUsingSelf : bool :=
  forallb (fun kv : string * state =>
    forallb (fun r => String.eqb (useSelfState r) "" &&
                      forallb (fun ge => String.eqb (ge_useSelfState ge) "") (byGroups r))
      (rules kv.2))
    (map_to_list table).

(** No rule of the table whose Push makes the stack grow matches the
    empty string at a position of [text]. *)
Definition noZeroGrowth (text : list ascii) : bool :=
  forallb (fun kv : string * state =>
    forallb (fun r =>
      negb (growing r) ||
      match pattern r with
      | Some re =>
          forallb (fun q => match regexp_match re text q with
                            | Some m => negb (Nat.eqb (mlen m) 0)
                            | None => true
                            end) (seq 0 (length text))
      | None => true
      end) (rules kv.2))
    (map_to_list table).

End Tokenize.

End Tokenizer.

(* ------------------------------------------------------------------ *)
(** ** Readings of the spec, to compare the code with *)

(** The spec's include resolution: a rule list where every Include rule
    is replaced by the rule list the (final) table holds for the included
    state, keeping the order. *)
Definition expandIncludes (final : rulesTable) (rs : list rule) : list rule :=
  flat_map (fun rl =>
    if String.eqb (include rl) "" then [rl]
    else match final !! include rl with Some st => rules st | None => [] end) rs.

(** An include graph ranked by [rank]: every Include rule of a state
    [s] that names a state of the table names one of smaller rank. *)
Definition includesRanked (rank : string -> nat) (t : rulesTable) : bool :=
  forallb (fun '(s, st) =>
    forallb (fun rl =>
      String.eqb (include rl) "" ||
      match t !! include rl with
      | Some _ => Nat.ltb (rank (include rl)) (rank s)
      | None => true
      end) (rules st)) (map_to_list t).

(** Every state of the table has a rank below [bound]. *)
Definition rankedBelow (rank : string -> nat) (bound : nat) (t : rulesTable) : bool :=
  forallb (fun '(s, _) => Nat.ltb (rank s) bound) (map_to_list t).

(** The spec's reading of rule conflicts: incompatible action
    categories, or a rule with neither a pattern nor any directive
    (Token, Push, Pop, Include, Combined, ByGroups, UsingSelf). *)
Definition specConflict (r : config.Rule) : bool :=
  (notNil (config.Token r) && notNil (config.Include r)) ||
  (notNil (config.Token r) && notNil (config.ByGroups r)) ||
  (notNil (config.Include r) && notNil (config.ByGroups r)) ||
  (notNil (config.Push r) && notNil (config.Pop r)) ||
  (notNil (config.Combined r) &&
     (notNil (config.Push r) || notNil (config.Pop r) || notNil (config.Include r))) ||
  (String.eqb (config.Pattern r) "" &&
     isNil (config.Token r) && isNil (config.Push r) && isNil (config.Pop r) &&
     isNil (config.Include r) && isNil (config.Combined r) &&
     isNil (config.ByGroups r) && isNil (config.UsingSelf r)).

Definition isOk {A} (o : outcome A) : bool := match o with Ok _ => true | _ => false end.

(** Every Combined list declared by a rule of the configuration. *)
Definition configCombineds (cfg : config.Lexer) : list (list string) :=
  flat_map (fun st =>
    flat_map (fun cr => match config.Combined cr with Some l => [l] | None => [] end)
      (config.Rules st)) (config.States cfg).

(** The spec's combined state for the ordered list [l]: the
    concatenation of the listed states' rules, in the order of [l]. *)
Definition concatStates (t : rulesTable) (l : list string) : list rule :=
  flat_map (fun s => match t !! s with Some st => rules st | None => [] end) l.

(** The table holds the combined state of [l] under its synthesized name,
    and every listed state. *)
Definition combinedPresent (t : rulesTable) (l : list string) : Prop :=
  t !! combinedStateName l = Some (mkStateS (combinedStateName l) (concatStates t l)) /\
  forall s, s ∈ l -> is_Some (t !! s).

(** No other Combined list of the configuration has the name of [l]. *)
Definition nameOnlyFor (cfg : config.Lexer) (l : list string) : bool :=
  forallb (fun l' => negb (String.eqb (combinedStateName l') (combinedStateName l)) ||
                     bool_decide (l' = l)) (configCombineds cfg).

(* ------------------------------------------------------------------ *)
(** ** Concrete grammars and matchers used to evaluate the model *)

Module Examples.

Definition tokRule (pat typ : string) : config.Rule :=
  config.mkRule pat (Some typ) None None None None None None.

Definition includeRule (s : string) : config.Rule :=
  config.mkRule "" None None None (Some s) None None None.

Definition combinedRule (pat : string) (subs : list string) : config.Rule :=
  config.mkRule pat None None None None (Some subs) None None.

Definition noConfig : config.Config := config.mkConfig "example" [] [] [] 0.

Definition mkCfg (sts : list config.State) : config.Lexer := config.mkLexer noConfig sts.

(** Every pattern compiles. *)
Definition anyPattern (_ : string) : bool := true.

(** root includes B, which includes C. *)
Definition cfgIncludeChain : config.Lexer :=
  mkCfg [config.mkState "root" [includeRule "B"; tokRule "a" "Text"];
         config.mkState "B" [includeRule "C"; tokRule "b" "Keyword"];
         config.mkState "C" [tokRule "c" "Number"]].

(** The table build produces for [cfgIncludeChain], and the lexer Build
    returns for it. *)
Definition tblIncludeChain : rulesTable :=
  match build anyPattern cfgIncludeChain with Ok t => t | _ => ∅ end.

Definition lexIncludeChain : Lexer :=
  match snd (Build anyPattern 10 cfgIncludeChain) with Ok (l, _) => l | _ => mkLexerS cfgIncludeChain ∅ end.

Definition rankIncludeChain (s : string) : nat :=
  if String.eqb s "root" then 2 else if String.eqb s "B" then 1 else 0.

(** root includes itself. *)
Definition cfgSelfInclude : config.Lexer :=
  mkCfg [config.mkState "root" [includeRule "root"]].

Definition tblSelfInclude : rulesTable :=
  match build anyPattern cfgSelfInclude with Ok t => t | _ => ∅ end.

Definition stSelfInclude : state :=
  match tblSelfInclude !! "root" with Some st => st | None => mkStateS "" [] end.

(** The lexer Build returns, when it returns one. *)
Definition builtLexer (acc : string -> bool) (fuel : nat) (cfg : config.Lexer) : Lexer :=
  match snd (Build acc fuel cfg) with Ok (l, _) => l | _ => mkLexerS cfg ∅ end.

(** No state is named root. *)
Definition cfgNoRoot : config.Lexer :=
  mkCfg [config.mkState "main" [tokRule "a" "Text"]].

(** root pushes a state that is not defined. *)
Definition cfgDanglingPush : config.Lexer :=
  mkCfg [config.mkState "root"
           [config.mkRule "a" (Some "Text") (Some "nowhere") None None None None None]].

(** root includes a state that is not defined. *)
Definition cfgDanglingInclude : config.Lexer :=
  mkCfg [config.mkState "root" [includeRule "nowhere"; tokRule "a" "Text"]].

Definition tblDanglingInclude : rulesTable :=
  match build anyPattern cfgDanglingInclude with Ok t => t | _ => ∅ end.

(** A rule with a token type and no pattern. *)
Definition tokenOnlyRule : config.Rule := tokRule "" "Text".

Definition cfgTokenOnly : config.Lexer :=
  mkCfg [config.mkState "root" [tokenOnlyRule]].


Definition cfgBadPattern : config.Lexer :=
  mkCfg [config.mkState "root" [tokRule "a" "Text"; tokRule "b(" "Text"]].

(** Two distinct Combined lists with the same synthesized name. *)
Definition cfgCollide : config.Lexer :=
  mkCfg [config.mkState "root" [combinedRule "x" ["a__b"]; combinedRule "y" ["a"; "b"]];
         config.mkState "a" [tokRule "a" "Keyword"];
         config.mkState "b" [tokRule "b" "Number"];
         config.mkState "a__b" [tokRule "c" "Comment"]].

(** Two rules declaring the same Combined list. *)
Definition cfgCombined : config.Lexer :=
  mkCfg [config.mkState "root" [combinedRule "x" ["a"; "b"]; tokRule "z" "Text"];
         config.mkState "a" [includeRule "b"; tokRule "a" "Keyword"];
         config.mkState "b" [combinedRule "y" ["a"; "b"]; tokRule "b" "Number"]].

(** filepath.Match for globs made of literal characters, ? and *. *)
Fixpoint globMatch (g : list ascii) : list ascii -> bool :=
  match g with
  | [] => fun s => match s with [] => true | _ => false end
  | c :: g' =>
      if Ascii.eqb c "*"%char then
        fix star (s : list ascii) : bool :=
          globMatch g' s ||
          match s with [] => false | d :: s' => negb (Ascii.eqb d slash) && star s' end
      else
        fun s => match s with
                 | [] => false
                 | d :: s' => (Ascii.eqb c "?"%char || Ascii.eqb c d) && globMatch g' s'
                 end
  end.

Definition simpleGlob (glob name : string) : option bool :=
  Some (globMatch (list_ascii_of_string glob) (list_ascii_of_string name)).

Definition goLexer : Lexer :=
  mkLexerS (config.mkLexer (config.mkConfig "Go" ["go"] ["*.go"] ["text/x-gosrc"] 0) []) ∅.

Definition goRegistry : LexerRegistry := mkLexerRegistry [goLexer] ∅ ∅.

(** strings.ToLower on ASCII letters. *)
Definition asciiLower (s : string) : string :=
  string_of_list_ascii
    (map (fun c => let n := nat_of_ascii c in
                   if (65 <=? n) && (n <=? 90) then ascii_of_nat (n + 32) else c)
       (list_ascii_of_string s)).

Definition pyLexer : Lexer :=
  mkLexerS (config.mkLexer (config.mkConfig "Python" ["py"; "Py3"] ["*.py"; "*.pyw"]
                              ["text/x-python"; "application/x-python"] 2) []) ∅.

Definition cLexer : Lexer :=
  mkLexerS (config.mkLexer (config.mkConfig "C" ["c"] ["*.c"; "*.h"] ["text/x-c"; "text/x-python"] 0) []) ∅.

(** The registry after registering the Go, Python and C lexers. *)
Definition regThree : LexerRegistry :=
  fst (Register asciiLower
         (fst (Register asciiLower (fst (Register asciiLower NewLexerRegistry goLexer)) pyLexer))
         cLexer).

(** A matcher that rejects globs with an unclosed "[". *)
Definition bracketGlob (glob name : string) : option bool :=
  if String.eqb (String.substring 0 1 glob) "[" then None else simpleGlob glob name.

(** A token rule that pushes, a ByGroups rule and a Combined rule. *)
Definition seqRules : list config.Rule :=
  [config.mkRule "a" (Some "Keyword") (Some "inner") None None None None None;
   config.mkRule "(x)(y)" None None None None None
     (Some [config.BGToken "Name"; config.BGUsingSelf "root"]) None;
   config.mkRule "z" (Some "Text") None None None (Some ["a"; "b"]) None None].

Definition seqCompiled : list rule :=
  match ruleSequence anyPattern seqRules with Ok rs => rs | _ => [] end.

(** A pattern engine for literal patterns: the compiled expression is
    the anchor \A followed by a literal, which matches where the text
    continues with it (the empty literal matches the empty string). *)
Definition litMatcher (re : Regexp) (text : list ascii) (p : nat)
  : option Tokenizer.MatchResult :=
  match list_ascii_of_string (re_expr re) with
  | b :: a :: lit =>
      if Ascii.eqb b "\"%char && Ascii.eqb a "A"%char &&
         bool_decide (take (length lit) (drop p text) = lit)
      then Some (Tokenizer.mkMatch (length lit) [])
      else None
  | _ => None
  end.

(** root pushes root on the empty string. *)
Definition cfgLoop : config.Lexer :=
  mkCfg [config.mkState "root" [config.mkRule "" None (Some "root") None None None None None]].

Definition tblLoop : rulesTable := lrules (builtLexer anyPattern 10 cfgLoop).

(** The rule root holds in [tblLoop]. *)
Definition loopRuleS : rule :=
  mkRuleS (Some (mkRegexp "\A" true (Some 250))) None "root" 0 "" [] "".

(** root reads "a" and pushes inner; inner reads "b" and pops, or pops on
    the empty string. *)
Definition cfgLit : config.Lexer :=
  mkCfg [config.mkState "root" [config.mkRule "a" (Some "Keyword") (Some "inner") None None None None None];
         config.mkState "inner" [config.mkRule "b" (Some "Name") None (Some 1) None None None None;
                                 config.mkRule "" None None (Some 1) None None None None]].

Definition tblLit : rulesTable := lrules (builtLexer anyPattern 10 cfgLit).

Definition textLit : list ascii := list_ascii_of_string "axabx".

End Examples.

(* ------------------------------------------------------------------ *)
(** ** Matching of compiled patterns, for a fragment of regexp2 *)

Module Regexp2Fragment.








End Regexp2Fragment.

(** What String.concat "__" puts after the first element of a list. *)
Definition sepTail (l : list string) : string :=
  match l with
  | [] => EmptyString
  | _ => String.append "__" (String.concat "__" l)
  end.

(* ------------------------------------------------------------------ *)
(** ** Proofs *)

Lemma bind_Ok {A B} (m : outcome A) (f : A -> outcome B) v :
  mbind f m = Ok v -> exists a, m = Ok a /\ f a = Ok v.
Proof. destruct m; cbn; try discriminate. eauto. Qed.

Lemma bind_Panic {A B} (m : outcome A) (f : A -> outcome B) e :
  mbind f m = Panic e -> m = Panic e \/ exists a, m = Ok a /\ f a = Panic e.
Proof. destruct m as [a|e'|]; cbn; intros H; [right; eauto|left; congruence|discriminate H]. Qed.

Ltac inv_bind H :=
  let a := fresh "a" in
  let E := fresh "E" in
  let H' := fresh "H" in
  apply bind_Ok in H as (a & E & H'); clear H; rename H' into H.

Lemma Build_snd_Ok acc fuel cfg l e :
  snd (Build acc fuel cfg) = Ok (l, e) ->
  exists t t', build acc cfg = Ok t /\ resolveIncludes fuel t = Ok t' /\
               l = mkLexerS cfg t' /\ e = None.
Proof.
  unfold Build; cbn [snd]. intros H.
  inv_bind H. inv_bind H. cbn in H. injection H as <- <-. eauto 6.
Qed.

Lemma resolve_nil f t : resolveIncludesIn (S f) t [] = Ok [].
Proof. reflexivity. Qed.

Lemma resolve_cons f t rl rs :
  resolveIncludesIn (S f) t (rl :: rs) =
  if String.eqb (include rl) "" then
    rest ← resolveIncludesIn (S f) t rs; mret (rl :: rest)
  else
    match t !! include rl with
    | None => Panic (EIncludeMissing (include rl))
    | Some includeState =>
        resolved ← resolveIncludesIn f t (rules includeState);
        rest ← resolveIncludesIn (S f) t rs;
        mret (resolved ++ rest)
    end.
Proof. reflexivity. Qed.

Lemma resolve_mono f t rs v :
  resolveIncludesIn f t rs = Ok v -> resolveIncludesIn (S f) t rs = Ok v.
Proof.
  revert rs v. induction f as [|f IH]; intros rs v H; [discriminate H|].
  revert v H. induction rs as [|rl rs IHrs]; intros v H; [exact H|].
  rewrite resolve_cons in H |- *.
  destruct (String.eqb (include rl) "").
  - inv_bind H. rewrite (IHrs _ E). exact H.
  - destruct (t !! include rl) as [st|]; [|exact H].
    inv_bind H. inv_bind H. rewrite (IH _ _ E), (IHrs _ E0). exact H.
Qed.

Lemma resolve_mono_le f f' t rs v :
  f <= f' -> resolveIncludesIn f t rs = Ok v -> resolveIncludesIn f' t rs = Ok v.
Proof.
  intros Hle H. induction Hle; [exact H|]. apply resolve_mono. auto.
Qed.

Lemma resolve_det f f' t rs v v' :
  resolveIncludesIn f t rs = Ok v -> resolveIncludesIn f' t rs = Ok v' -> v = v'.
Proof.
  intros H H'.
  apply (resolve_mono_le f (Nat.max f f')) in H; [|lia].
  apply (resolve_mono_le f' (Nat.max f f')) in H'; [|lia].
  rewrite H in H'. congruence.
Qed.

Lemma resolve_no_include f t rs v :
  resolveIncludesIn f t rs = Ok v -> forall r, r ∈ v -> include r = "".
Proof.
  revert rs v. induction f as [|f IH]; intros rs v H; [discriminate H|].
  revert v H. induction rs as [|rl rs IHrs]; intros v H r Hr.
  - rewrite resolve_nil in H. injection H as <-. set_solver.
  - rewrite resolve_cons in H.
    destruct (String.eqb (include rl) "") eqn:Ei.
    + inv_bind H. injection H as <-. apply elem_of_cons in Hr as [->|Hr].
      * by apply String.eqb_eq.
      * eauto.
    + destruct (t !! include rl) as [st|]; [|discriminate H].
      inv_bind H. inv_bind H. injection H as <-.
      apply elem_of_app in Hr as [Hr|Hr]; eauto.
Qed.

(** A failed resolution names one undefined include target. *)
Lemma resolve_panic f t rs e :
  resolveIncludesIn f t rs = Panic e ->
  exists n, e = EIncludeMissing n /\ t !! n = None.
Proof.
  revert rs. induction f as [|f IH]; intros rs H; [discriminate H|].
  induction rs as [|rl rs IHrs]; [discriminate H|].
  rewrite resolve_cons in H.
  destruct (String.eqb (include rl) "").
  - apply bind_Panic in H as [H|(a & _ & H)]; [auto|discriminate H].
  - destruct (t !! include rl) as [st|] eqn:Et.
    + apply bind_Panic in H as [H|(a & _ & H)]; [eauto|].
      apply bind_Panic in H as [H|(b & _ & H)]; [auto|discriminate H].
    + injection H as <-. eauto.
Qed.

Lemma resolveEntries_fwd fuel t es m :
  resolveEntries fuel t es = Ok m -> NoDup es.*1 ->
  forall n st, (n, st) ∈ es ->
  exists l, resolveIncludesIn fuel t (rules st) = Ok l /\
            m !! n = Some (mkStateS (name st) l).
Proof.
  revert m. induction es as [|[n0 st0] es IH]; intros m H Hnd n st Hin.
  - apply elem_of_nil in Hin as [].
  - cbn [resolveEntries] in H. inv_bind H. inv_bind H. injection H as <-.
    cbn in Hnd. apply NoDup_cons in Hnd as [Hn0 Hnd].
    apply elem_of_cons in Hin as [Heq|Hin].
    + injection Heq as -> ->. exists a. split; [exact E|]. by rewrite lookup_insert_eq.
    + destruct (IH _ E0 Hnd n st Hin) as (l & Hl & Hm).
      exists l. split; [exact Hl|]. rewrite lookup_insert_ne; [exact Hm|].
      intros ->. apply Hn0. apply list_elem_of_fmap. exists (n, st). auto.
Qed.

Lemma resolveEntries_inv fuel t es m n st' :
  resolveEntries fuel t es = Ok m -> m !! n = Some st' ->
  exists st, (n, st) ∈ es /\ resolveIncludesIn fuel t (rules st) = Ok (rules st').
Proof.
  revert m. induction es as [|[n0 st0] es IH]; intros m H Hm.
  - cbn in H. injection H as <-. by rewrite lookup_empty in Hm.
  - cbn [resolveEntries] in H. inv_bind H. inv_bind H. injection H as <-.
    rewrite lookup_insert in Hm. case_decide as Hn.
    + subst n0. injection Hm as <-. exists st0. split; [left|exact E].
    + destruct (IH _ E0 Hm) as (st & Hin & Hr). exists st. split; [by right|exact Hr].
Qed.

Lemma resolveIncludes_fwd fuel t m n st :
  resolveIncludes fuel t = Ok m -> t !! n = Some st ->
  exists l, resolveIncludesIn fuel t (rules st) = Ok l /\
            m !! n = Some (mkStateS (name st) l).
Proof.
  intros H Ht. eapply resolveEntries_fwd; [exact H|apply NoDup_fst_map_to_list|].
  by apply elem_of_map_to_list.
Qed.

Lemma resolveIncludes_inv fuel t m n st' :
  resolveIncludes fuel t = Ok m -> m !! n = Some st' ->
  exists st, t !! n = Some st /\ resolveIncludesIn fuel t (rules st) = Ok (rules st').
Proof.
  intros H Hm. destruct (resolveEntries_inv _ _ _ _ _ _ H Hm) as (st & Hin & Hr).
  exists st. split; [by apply elem_of_map_to_list|exact Hr].
Qed.

(** Once the whole table is resolved, a successful resolution of any rule
    list is its expansion against the resolved table. *)
Lemma resolve_expand fuel t m :
  resolveIncludes fuel t = Ok m ->
  forall f rs l, resolveIncludesIn f t rs = Ok l -> l = expandIncludes m rs.
Proof.
  intros Hm f. induction f as [|f IH]; intros rs l H; [discriminate H|].
  revert l H. induction rs as [|rl rs IHrs]; intros l H.
  - rewrite resolve_nil in H. by injection H as <-.
  - rewrite resolve_cons in H. cbn [expandIncludes flat_map].
    destruct (String.eqb (include rl) "") eqn:Ei.
    + inv_bind H. injection H as <-. rewrite (IHrs _ E). reflexivity.
    + destruct (t !! include rl) as [stk|] eqn:Et; [|discriminate H].
      inv_bind H. inv_bind H. injection H as <-.
      destruct (resolveIncludes_fwd _ _ _ _ _ Hm Et) as (lk & Hlk & Hmk).
      rewrite Hmk. cbn [rules]. rewrite (IHrs _ E0).
      rewrite (resolve_det _ _ _ _ _ _ E Hlk). reflexivity.
Qed.

(** C4: include resolution is transitive and leaves no Include rule. *)
Theorem Build_include_transitive acc fuel cfg t lex :
  build acc cfg = Ok t ->
  snd (Build acc fuel cfg) = Ok (lex, None) ->
  (forall s st, t !! s = Some st ->
     exists st', lrules lex !! s = Some st' /\
                 rules st' = expandIncludes (lrules lex) (rules st)) /\
  (forall s st', lrules lex !! s = Some st' -> forall r, r ∈ rules st' -> include r = "").
Proof.
  intros Hb HB. apply Build_snd_Ok in HB as (t0 & t' & Hb' & Hr & -> & _).
  rewrite Hb in Hb'. injection Hb' as <-. cbn [lrules]. split.
  - intros s st Hs. destruct (resolveIncludes_fwd _ _ _ _ _ Hr Hs) as (l & Hl & Hm).
    exists (mkStateS (name st) l). split; [exact Hm|].
    exact (resolve_expand _ _ _ Hr _ _ _ Hl).
  - intros s st' Hs. destruct (resolveIncludes_inv _ _ _ _ _ Hr Hs) as (st & _ & Hl).
    exact (resolve_no_include _ _ _ _ Hl).
Qed.

Lemma Build_include_transitive_witness :
  build Examples.anyPattern Examples.cfgIncludeChain = Ok Examples.tblIncludeChain /\
  snd (Build Examples.anyPattern 10 Examples.cfgIncludeChain) = Ok (Examples.lexIncludeChain, None) /\
  ((forall s st, Examples.tblIncludeChain !! s = Some st ->
     exists st', lrules Examples.lexIncludeChain !! s = Some st' /\
                 rules st' = expandIncludes (lrules Examples.lexIncludeChain) (rules st)) /\
   (forall s st', lrules Examples.lexIncludeChain !! s = Some st' ->
      forall r, r ∈ rules st' -> include r = "")).
Proof.
  assert (H1 : build Examples.anyPattern Examples.cfgIncludeChain = Ok Examples.tblIncludeChain)
    by (vm_compute; reflexivity).
  assert (H2 : snd (Build Examples.anyPattern 10 Examples.cfgIncludeChain)
               = Ok (Examples.lexIncludeChain, None)) by (vm_compute; reflexivity).
  split; [exact H1|]. split; [exact H2|].
  exact (Build_include_transitive _ _ _ _ _ H1 H2).
Defined.

Lemma self_include_loops f :
  resolveIncludesIn f Examples.tblSelfInclude (rules Examples.stSelfInclude) = OutOfFuel.
Proof.
  assert (Hrs : exists r, rules Examples.stSelfInclude = [r] /\ include r = "root")
    by (eexists; split; vm_compute; reflexivity).
  destruct Hrs as (r & Hrs & Hi).
  assert (Ht : Examples.tblSelfInclude !! "root" = Some Examples.stSelfInclude)
    by (vm_compute; reflexivity).
  rewrite Hrs. induction f as [|f IH]; [reflexivity|].
  rewrite resolve_cons, Hi. cbn [String.eqb Ascii.eqb Bool.eqb andb].
  rewrite Ht, Hrs, IH. reflexivity.
Qed.

(** C5, counterexample: a state that includes itself passes the table
    build, and then makes Build recurse without end: it neither returns
    nor panics, whatever the fuel. *)
Lemma Build_self_include_diverges :
  isOk (build Examples.anyPattern Examples.cfgSelfInclude) = true /\
  forall fuel, snd (Build Examples.anyPattern fuel Examples.cfgSelfInclude) = OutOfFuel.
Proof.
  split; [vm_compute; reflexivity|]. intros fuel.
  assert (Hb : build Examples.anyPattern Examples.cfgSelfInclude = Ok Examples.tblSelfInclude)
    by (vm_compute; reflexivity).
  assert (Hl : map_to_list Examples.tblSelfInclude = [("root", Examples.stSelfInclude)])
    by (vm_compute; reflexivity).
  unfold Build; cbn [snd]. rewrite Hb. cbn [mbind outcome_bind].
  unfold resolveIncludes. rewrite Hl. cbn [resolveEntries].
  rewrite self_include_loops. reflexivity.
Qed.

Lemma bind_not_OutOfFuel {A B} (m : outcome A) (f : A -> outcome B) :
  m <> OutOfFuel -> (forall a, m = Ok a -> f a <> OutOfFuel) -> mbind f m <> OutOfFuel.
Proof. destruct m; cbn; intros H1 H2; [eauto|discriminate|congruence]. Qed.

Lemma includesRanked_spec rank t s st rl st2 :
  includesRanked rank t = true -> t !! s = Some st -> rl ∈ rules st ->
  include rl <> "" -> t !! include rl = Some st2 -> rank (include rl) < rank s.
Proof.
  intros H Hs Hrl Hne Hi. unfold includesRanked in H.
  rewrite forallb_forall in H.
  specialize (H (s, st)). rewrite <- list_elem_of_In, elem_of_map_to_list in H.
  specialize (H Hs). cbn in H. rewrite forallb_forall in H.
  specialize (H rl). rewrite <- list_elem_of_In in H. specialize (H Hrl).
  rewrite Hi in H. apply String.eqb_neq in Hne. rewrite Hne in H. cbn in H.
  by apply Nat.ltb_lt.
Qed.

Lemma rankedBelow_spec rank bound t s st :
  rankedBelow rank bound t = true -> t !! s = Some st -> rank s < bound.
Proof.
  intros H Hs. unfold rankedBelow in H. rewrite forallb_forall in H.
  specialize (H (s, st)). rewrite <- list_elem_of_In, elem_of_map_to_list in H.
  specialize (H Hs). by apply Nat.ltb_lt.
Qed.

Lemma resolve_ranked_ends rank t :
  includesRanked rank t = true ->
  forall n s st rs, t !! s = Some st -> rank s < n ->
  (forall rl, rl ∈ rs -> rl ∈ rules st) ->
  resolveIncludesIn n t rs <> OutOfFuel.
Proof.
  intros Hr n. induction n as [|f IH]; intros s st rs Hs Hlt Hsub; [lia|].
  induction rs as [|rl rs IHrs]; [discriminate|].
  assert (Hsub' : forall r, r ∈ rs -> r ∈ rules st) by (intros r Hin; apply Hsub; by right).
  rewrite resolve_cons. destruct (String.eqb (include rl) "") eqn:Ei.
  - apply bind_not_OutOfFuel; [exact (IHrs Hsub')|]. intros; discriminate.
  - destruct (t !! include rl) as [st2|] eqn:Et; [|discriminate].
    assert (Hrk : rank (include rl) < rank s).
    { eapply includesRanked_spec; [exact Hr|exact Hs|apply Hsub; by left|by apply String.eqb_neq|exact Et]. }
    apply bind_not_OutOfFuel.
    + apply (IH (include rl) st2); [exact Et|lia|auto].
    + intros a _. apply bind_not_OutOfFuel; [exact (IHrs Hsub')|]. intros; discriminate.
Qed.

Lemma resolveEntries_ends fuel t es :
  (forall n st, (n, st) ∈ es -> resolveIncludesIn fuel t (rules st) <> OutOfFuel) ->
  resolveEntries fuel t es <> OutOfFuel.
Proof.
  induction es as [|[n st] es IH]; intros H; [discriminate|].
  cbn [resolveEntries]. apply bind_not_OutOfFuel; [apply (H n); by left|].
  intros a _. apply bind_not_OutOfFuel; [apply IH; intros n' st' Hin; apply (H n'); by right|].
  intros; discriminate.
Qed.

Lemma resolveIncludes_panic fuel t :
  forall e, resolveIncludes fuel t = Panic e ->
  exists n, e = EIncludeMissing n /\ t !! n = None.
Proof.
  intros e He. unfold resolveIncludes in He.
  revert He. generalize (map_to_list t) as es. intros es.
  induction es as [|[n st] es IH]; intros He; [discriminate He|].
  cbn [resolveEntries] in He.
  apply bind_Panic in He as [He|(a & _ & He)]; [exact (resolve_panic _ _ _ _ He)|].
  apply bind_Panic in He as [He|(b & _ & He)]; [exact (IH He)|discriminate He].
Qed.

(** A successful resolution never meets an undefined include target. *)
Lemma resolve_ok_defined f t rs l :
  resolveIncludesIn f t rs = Ok l ->
  forall rl, rl ∈ rs -> include rl <> "" -> is_Some (t !! include rl).
Proof.
  destruct f as [|f]; [discriminate|]. revert l.
  induction rs as [|r rs IH]; intros l H rl Hin Hne; [apply elem_of_nil in Hin as []|].
  rewrite resolve_cons in H. apply elem_of_cons in Hin as [<-|Hin].
  - apply String.eqb_neq in Hne. rewrite Hne in H.
    destruct (t !! include rl) eqn:E; [eauto|discriminate H].
  - destruct (String.eqb (include r) "").
    + inv_bind H. eauto.
    + destruct (t !! include r); [|discriminate H]. inv_bind H. inv_bind H. eauto.
Qed.

(** A failed resolution stops at a rule, of the list or of a state of
    the table, whose Include names no state of the table. *)
Lemma resolve_panic_target f t rs e :
  resolveIncludesIn f t rs = Panic e ->
  exists rl, e = EIncludeMissing (include rl) /\ include rl <> "" /\ t !! include rl = None /\
    (rl ∈ rs \/ exists s st, t !! s = Some st /\ rl ∈ rules st).
Proof.
  revert rs. induction f as [|f IH]; intros rs H; [discriminate H|].
  induction rs as [|rl rs IHrs]; [discriminate H|].
  rewrite resolve_cons in H.
  destruct (String.eqb (include rl) "") eqn:Ei.
  - apply bind_Panic in H as [H|(a & _ & H)]; [|discriminate H].
    destruct (IHrs H) as (rl' & ? & ? & ? & [Hin|Hin]); exists rl'; rewrite elem_of_cons; tauto.
  - destruct (t !! include rl) as [st|] eqn:Et.
    + apply bind_Panic in H as [H|(a & _ & H)].
      * destruct (IH _ H) as (rl' & ? & ? & ? & [Hin|Hin]); exists rl'; [|tauto].
        split_and!; [done|done|done|]. right. eauto.
      * apply bind_Panic in H as [H|(b & _ & H)]; [|discriminate H].
        destruct (IHrs H) as (rl' & ? & ? & ? & [Hin|Hin]); exists rl'; rewrite elem_of_cons; tauto.
    + injection H as <-. exists rl. split_and!; [done|by apply String.eqb_neq|done|by left; left].
Qed.

Lemma resolveEntries_panic fuel t es e :
  resolveEntries fuel t es = Panic e ->
  exists n st, (n, st) ∈ es /\ resolveIncludesIn fuel t (rules st) = Panic e.
Proof.
  induction es as [|[n st] es IH]; intros He; [discriminate He|].
  cbn [resolveEntries] in He.
  apply bind_Panic in He as [He|(a & _ & He)]; [exists n, st; split; [by left|exact He]|].
  apply bind_Panic in He as [He|(b & _ & He)]; [|discriminate He].
  destruct (IH He) as (n' & st' & Hin & H'). exists n', st'. split; [by right|exact H'].
Qed.

(** After a successful build, a panic of Build is an Include, in a state
    of the built table, of a state the table does not have. *)
Lemma Build_panic_target acc fuel cfg t e :
  build acc cfg = Ok t -> snd (Build acc fuel cfg) = Panic e ->
  exists s st rl, t !! s = Some st /\ rl ∈ rules st /\ include rl <> "" /\
    t !! include rl = None /\ e = EIncludeMissing (include rl).
Proof.
  intros Hb He. unfold Build in He. cbn [snd] in He. rewrite Hb in He.
  cbn [mbind outcome_bind] in He.
  apply bind_Panic in He as [He|(a & _ & He)]; [|discriminate He].
  unfold resolveIncludes in He. apply resolveEntries_panic in He as (n & st & Hin & He).
  apply elem_of_map_to_list in Hin.
  destruct (resolve_panic_target _ _ _ _ He) as (rl & -> & Hne & Hnone & [Hrl|(s & st' & Hs & Hrl)]).
  - exists n, st, rl. auto.
  - exists s, st', rl. auto.
Qed.

(** A lexer returned by Build comes from a table whose Include targets
    are all defined. *)
Lemma Build_ok_defined acc fuel cfg t x :
  build acc cfg = Ok t -> snd (Build acc fuel cfg) = Ok x ->
  forall s st rl, t !! s = Some st -> rl ∈ rules st -> include rl <> "" -> is_Some (t !! include rl).
Proof.
  intros Hb HB s st rl Hs Hin Hne. destruct x as [l e].
  apply Build_snd_Ok in HB as (t0 & t' & Hb' & Hr & _ & _).
  rewrite Hb in Hb'. injection Hb' as <-.
  destruct (resolveIncludes_fwd _ _ _ _ _ Hr Hs) as (l' & Hl & _).
  exact (resolve_ok_defined _ _ _ _ Hl rl Hin Hne).
Qed.

(** C5, as amended: when the include graph of the built table is
    acyclic (ranked) and the fuel exceeds every rank, Build ends; it
    panics exactly when a rule of the built table includes a state the
    table does not have, with an error naming such an include target,
    and otherwise returns the lexer with a nil error. *)
Theorem Build_include_resolution_ends acc cfg t rank fuel :
  build acc cfg = Ok t ->
  includesRanked rank t = true ->
  rankedBelow rank fuel t = true ->
  snd (Build acc fuel cfg) <> OutOfFuel /\
  (forall e, snd (Build acc fuel cfg) = Panic e ->
     exists s st rl, t !! s = Some st /\ rl ∈ rules st /\ include rl <> "" /\
       t !! include rl = None /\ e = EIncludeMissing (include rl)) /\
  ((exists s st rl, t !! s = Some st /\ rl ∈ rules st /\ include rl <> "" /\
      t !! include rl = None) ->
   exists n, t !! n = None /\ snd (Build acc fuel cfg) = Panic (EIncludeMissing n)) /\
  ((forall s st rl, t !! s = Some st -> rl ∈ rules st -> include rl <> "" ->
      is_Some (t !! include rl)) ->
   exists t', snd (Build acc fuel cfg) = Ok (mkLexerS cfg t', None)).
Proof.
  intros Hb Hr Hbelow.
  assert (Hend : snd (Build acc fuel cfg) <> OutOfFuel).
  { unfold Build; cbn [snd]. rewrite Hb. cbn [mbind outcome_bind].
    apply bind_not_OutOfFuel; [|intros; discriminate].
    unfold resolveIncludes. apply resolveEntries_ends.
    intros n st Hin. apply elem_of_map_to_list in Hin.
    apply (resolve_ranked_ends rank t Hr fuel n st); [exact Hin| |auto].
    eapply rankedBelow_spec; eauto. }
  split; [exact Hend|]. split; [|split].
  - intros e He. exact (Build_panic_target _ _ _ _ _ Hb He).
  - intros (s & st & rl & Hs & Hin & Hne & Hnone).
    destruct (snd (Build acc fuel cfg)) as [x|e|] eqn:HB; [| |congruence].
    + exfalso. destruct (Build_ok_defined _ _ _ _ _ Hb HB s st rl Hs Hin Hne) as [v Hv].
      congruence.
    + destruct (Build_panic_target _ _ _ _ _ Hb HB) as (s' & st' & rl' & _ & _ & _ & Hn & ->).
      eauto.
  - intros Hdef. destruct (snd (Build acc fuel cfg)) as [[l e]|e|] eqn:HB; [| |congruence].
    + apply Build_snd_Ok in HB as (t0 & t' & _ & _ & -> & ->). eauto.
    + exfalso. destruct (Build_panic_target _ _ _ _ _ Hb HB) as (s & st & rl & Hs & Hin & Hne & Hn & _).
      destruct (Hdef s st rl Hs Hin Hne) as [v Hv]. congruence.
Qed.

Lemma Build_include_resolution_ends_witness :
  snd (Build Examples.anyPattern 3 Examples.cfgIncludeChain) <> OutOfFuel /\
  (exists n, Examples.tblDanglingInclude !! n = None /\
     snd (Build Examples.anyPattern 1 Examples.cfgDanglingInclude) = Panic (EIncludeMissing n)).
Proof.
  split.
  - assert (H1 : build Examples.anyPattern Examples.cfgIncludeChain = Ok Examples.tblIncludeChain)
      by (vm_compute; reflexivity).
    assert (H2 : includesRanked Examples.rankIncludeChain Examples.tblIncludeChain = true)
      by (vm_compute; reflexivity).
    assert (H3 : rankedBelow Examples.rankIncludeChain 3 Examples.tblIncludeChain = true)
      by (vm_compute; reflexivity).
    exact (proj1 (Build_include_resolution_ends _ _ _ _ _ H1 H2 H3)).
  - assert (H1 : build Examples.anyPattern Examples.cfgDanglingInclude = Ok Examples.tblDanglingInclude)
      by (vm_compute; reflexivity).
    assert (H2 : includesRanked (fun _ => 0) Examples.tblDanglingInclude = true)
      by (vm_compute; reflexivity).
    assert (H3 : rankedBelow (fun _ => 0) 1 Examples.tblDanglingInclude = true)
      by (vm_compute; reflexivity).
    apply (proj1 (proj2 (proj2 (Build_include_resolution_ends _ _ _ _ _ H1 H2 H3)))).
    destruct (Examples.tblDanglingInclude !! "root") as [st|] eqn:Hs;
      [|vm_compute in Hs; discriminate Hs].
    exists "root", st.
    assert (Hst := Hs). vm_compute in Hst. injection Hst as <-.
    eexists. split; [exact Hs|]. split; [by left|].
    split; [vm_compute; discriminate|vm_compute; reflexivity].
Defined.

Lemma Build_error_nil acc fuel cfg l e :
  snd (Build acc fuel cfg) = Ok (l, e) -> e = None.
Proof. intros H. apply Build_snd_Ok in H as (? & ? & _ & _ & _ & He). exact He. Qed.

(** C1, counterexample: without a root state, Build only logs validate's
    error and returns a lexer with a nil error. *)
Lemma Build_no_root_returns_lexer :
  fst (Build Examples.anyPattern 10 Examples.cfgNoRoot) = [ENoRoot] /\
  snd (Build Examples.anyPattern 10 Examples.cfgNoRoot) =
    Ok (Examples.builtLexer Examples.anyPattern 10 Examples.cfgNoRoot, None).
Proof. split; vm_compute; reflexivity. Qed.

(** C1, as amended: when no state is named root, the missing-root error
    is only logged; Build returns the lexer with a nil error whenever the
    rules compile and the includes resolve, and never returns an error. *)
Theorem Build_no_root_only_logged acc fuel cfg :
  existsb (fun s => String.eqb (config.Name s) "root") (config.States cfg) = false ->
  fst (Build acc fuel cfg) = [ENoRoot] /\
  (forall t t', build acc cfg = Ok t -> resolveIncludes fuel t = Ok t' ->
     snd (Build acc fuel cfg) = Ok (mkLexerS cfg t', None)) /\
  (forall l e, snd (Build acc fuel cfg) = Ok (l, e) -> e = None).
Proof.
  intros Hroot. split; [|split].
  - unfold Build, validate. cbn [fst]. rewrite Hroot. reflexivity.
  - intros t t' Hb Hr. unfold Build. cbn [snd]. rewrite Hb. cbn [mbind outcome_bind].
    rewrite Hr. reflexivity.
  - apply Build_error_nil.
Qed.

Lemma Build_no_root_only_logged_witness :
  existsb (fun s => String.eqb (config.Name s) "root") (config.States Examples.cfgNoRoot) = false /\
  (fst (Build Examples.anyPattern 10 Examples.cfgNoRoot) = [ENoRoot] /\
   (forall t t', build Examples.anyPattern Examples.cfgNoRoot = Ok t -> resolveIncludes 10 t = Ok t' ->
      snd (Build Examples.anyPattern 10 Examples.cfgNoRoot) = Ok (mkLexerS Examples.cfgNoRoot t', None)) /\
   (forall l e, snd (Build Examples.anyPattern 10 Examples.cfgNoRoot) = Ok (l, e) -> e = None)).
Proof.
  assert (H : existsb (fun s => String.eqb (config.Name s) "root")
                (config.States Examples.cfgNoRoot) = false) by reflexivity.
  split; [exact H|]. exact (Build_no_root_only_logged _ _ _ H).
Defined.

(** C2, counterexample: a Push to an undefined state does not make Build
    fail; validate's list of undefined states is only logged. *)
Lemma Build_dangling_push_returns_lexer :
  fst (Build Examples.anyPattern 10 Examples.cfgDanglingPush) = [EMissingStates ["nowhere"]] /\
  snd (Build Examples.anyPattern 10 Examples.cfgDanglingPush) =
    Ok (Examples.builtLexer Examples.anyPattern 10 Examples.cfgDanglingPush, None).
Proof. split; vm_compute; reflexivity. Qed.

(** C2, as amended: Build never returns an error; an Include of an
    undefined state keeps Build from returning, and a panic of include
    resolution names a single undefined include target. *)
Theorem Build_dangling_references acc fuel cfg t :
  build acc cfg = Ok t ->
  (forall l e, snd (Build acc fuel cfg) = Ok (l, e) -> e = None) /\
  (forall s st rl, t !! s = Some st -> rl ∈ rules st -> include rl <> "" ->
     t !! include rl = None -> forall x, snd (Build acc fuel cfg) <> Ok x) /\
  (forall e, snd (Build acc fuel cfg) = Panic e ->
     exists n, e = EIncludeMissing n /\ t !! n = None).
Proof.
  intros Hb. split; [|split].
  - apply Build_error_nil.
  - intros s st rl Hs Hin Hne Hnone x HB. destruct x as [l e].
    apply Build_snd_Ok in HB as (t0 & t' & Hb' & Hr & _ & _).
    rewrite Hb in Hb'. injection Hb' as <-.
    destruct (resolveIncludes_fwd _ _ _ _ _ Hr Hs) as (l' & Hl & _).
    destruct (resolve_ok_defined _ _ _ _ Hl rl Hin Hne) as [? Hsome].
    rewrite Hnone in Hsome. discriminate Hsome.
  - intros e He. unfold Build in He. cbn [snd] in He. rewrite Hb in He.
    cbn [mbind outcome_bind] in He.
    apply bind_Panic in He as [He|(a & _ & He)]; [|discriminate He].
    exact (resolveIncludes_panic _ _ _ He).
Qed.

Lemma Build_dangling_references_witness :
  build Examples.anyPattern Examples.cfgDanglingInclude =
    Ok (match build Examples.anyPattern Examples.cfgDanglingInclude with Ok t => t | _ => ∅ end) /\
  let t := match build Examples.anyPattern Examples.cfgDanglingInclude with Ok t => t | _ => ∅ end in
  (forall l e, snd (Build Examples.anyPattern 10 Examples.cfgDanglingInclude) = Ok (l, e) -> e = None) /\
  (forall s st rl, t !! s = Some st -> rl ∈ rules st -> include rl <> "" ->
     t !! include rl = None -> forall x, snd (Build Examples.anyPattern 10 Examples.cfgDanglingInclude) <> Ok x) /\
  (forall e, snd (Build Examples.anyPattern 10 Examples.cfgDanglingInclude) = Panic e ->
     exists n, e = EIncludeMissing n /\ t !! n = None).
Proof.
  assert (H : build Examples.anyPattern Examples.cfgDanglingInclude =
    Ok (match build Examples.anyPattern Examples.cfgDanglingInclude with Ok t => t | _ => ∅ end))
    by (vm_compute; reflexivity).
  split; [exact H|]. exact (Build_dangling_references _ _ _ _ H).
Defined.

(** C7, counterexample: a rule with a token type but no pattern has a
    directive and no conflicting pair, yet checkRule rejects it and Build
    panics. *)
Lemma checkRule_token_only_rejected :
  specConflict Examples.tokenOnlyRule = false /\
  checkRule Examples.tokenOnlyRule = Some ENoPattern /\
  snd (Build Examples.anyPattern 10 Examples.cfgTokenOnly) = Panic ENoPattern.
Proof. split; [|split]; vm_compute; reflexivity. Qed.

Lemma setRuleFieldsFrom_pattern r cr r' :
  setRuleFieldsFrom r cr = Ok r' -> pattern r' = pattern r.
Proof.
  unfold setRuleFieldsFrom. intros H.
  inv_bind H.
  assert (Ha : pattern a = pattern r).
  { destruct (config.Token cr); [|injection E as <-; reflexivity].
    inv_bind E. injection E as <-. reflexivity. }
  inv_bind H.
  assert (Ha0 : pattern a0 = pattern a).
  { destruct (config.ByGroups cr);
      [inv_bind E0; injection E0 as <-|injection E0 as <-];
      destruct (config.Pop cr), (config.Push cr), (config.Include cr); reflexivity. }
  injection H as <-. rewrite <- Ha, <- Ha0.
  destruct (config.UsingSelf cr); reflexivity.
Qed.


Lemma ruleSequence_app_panic acc pre crs e :
  isOk (ruleSequence acc pre) = true -> ruleSequence acc crs = Panic e ->
  ruleSequence acc (pre ++ crs) = Panic e.
Proof.
  induction pre as [|cr pre IH]; intros Hpre Hcrs; [exact Hcrs|].
  destruct (ruleSequence acc (cr :: pre)) eqn:Hs; [|discriminate Hpre|discriminate Hpre].
  cbn [ruleSequence app] in Hs |- *. cbv zeta in Hs |- *.
  inv_bind Hs. inv_bind Hs. inv_bind Hs. inv_bind Hs.
  rewrite E. cbn [mbind outcome_bind]. rewrite E0. cbn [mbind outcome_bind].
  rewrite E1. cbn [mbind outcome_bind].
  rewrite IH; [reflexivity| |exact Hcrs]. by rewrite E2.
Qed.

Lemma addStates_panic acc pre st post e :
  forallb (fun st => isOk (ruleSequence acc (config.Rules st))) pre = true ->
  ruleSequence acc (config.Rules st) = Panic e ->
  forall t, addStates acc t (pre ++ st :: post) = Panic e.
Proof.
  induction pre as [|st0 pre IH]; intros Hpre Hst t.
  - cbn [app addStates]. rewrite Hst. reflexivity.
  - cbn [forallb] in Hpre. apply andb_prop in Hpre as [H0 Hpre].
    cbn [app addStates].
    destruct (ruleSequence acc (config.Rules st0)); [|discriminate H0|discriminate H0].
    cbn [mbind outcome_bind]. apply IH; assumption.
Qed.

(** C7, as amended: checkRule rejects a rule exactly for the claim's
    conflicting pairs and for an empty pattern without Push, Pop or
    Include; Build panics with that error when it reaches the rule, that
    is, when the states before the rule's state and the rules before it
    in its state all compile. *)
Theorem checkRule_rejects (r : config.Rule) :
  (notNil (checkRule r) = true <->
     specConflict r = true \/
     (String.eqb (config.Pattern r) "" && isNil (config.Push r) &&
      isNil (config.Pop r) && isNil (config.Include r)) = true) /\
  (forall acc fuel c pre name crs_pre crs_post post e,
     forallb (fun st => isOk (ruleSequence acc (config.Rules st))) pre = true ->
     isOk (ruleSequence acc crs_pre) = true ->
     checkRule r = Some e ->
     snd (Build acc fuel
            (config.mkLexer c (pre ++ config.mkState name (crs_pre ++ r :: crs_post) :: post))) =
       Panic e).
Proof.
  split.
  - destruct r as [pat [tk|] [pu|] [po|] [inc|] [cb|] [bg|] [us|]];
      unfold checkRule, specConflict; cbn [config.Pattern config.Token config.Push
      config.Pop config.Include config.Combined config.ByGroups config.UsingSelf];
      destruct (String.eqb pat ""); cbn; intuition congruence.
  - intros acc fuel c pre name crs_pre crs_post post e Hpre Hcrs He.
    unfold Build, build. cbn [snd config.States].
    rewrite (addStates_panic acc pre _ post e); [reflexivity|exact Hpre|].
    cbn [config.Rules]. apply ruleSequence_app_panic; [exact Hcrs|].
    cbn [ruleSequence]. unfold check. rewrite He. reflexivity.
Qed.

Lemma checkRule_rejects_witness :
  checkRule Examples.tokenOnlyRule = Some ENoPattern /\
  snd (Build Examples.anyPattern 10
         (config.mkLexer Examples.noConfig
            ([config.mkState "other" [Examples.tokRule "b" "Text"]] ++
             config.mkState "root" ([Examples.tokRule "a" "Text"] ++
                                    Examples.tokenOnlyRule :: [Examples.tokRule "c" "Text"]) :: []))) =
    Panic ENoPattern.
Proof.
  assert (H : checkRule Examples.tokenOnlyRule = Some ENoPattern) by (vm_compute; reflexivity).
  split; [exact H|].
  apply (proj2 (checkRule_rejects Examples.tokenOnlyRule)); [vm_compute; reflexivity|vm_compute; reflexivity|exact H].
Defined.




(** C9: Match never returns a lexer: the glob results are discarded and
    [matched] stays empty.  For a Go lexer with the glob *.go, Match of
    src/main.go is nil although the glob matches main.go. *)
Theorem Match_never_returns_lexer :
  (forall fm reg filename l, Match fm reg filename <> Ok (Some l)) /\
  Examples.simpleGlob "*.go" (filepath_Base "src/main.go") = Some true /\
  Match Examples.simpleGlob Examples.goRegistry "src/main.go" = Ok None.
Proof.
  split; [|split; vm_compute; reflexivity].
  intros fm reg filename l. unfold Match.
  destruct (checkLexers fm (Lexers reg) (filepath_Base filename)); cbn; discriminate.
Qed.

(** C10: the synthesized name is "__combined_" followed by the substate
    names joined with "__"; ["a__b"] and ["a"; "b"] get the same name, and
    both rules then push the state built first, for ["a__b"]. *)
Theorem combinedStateName_collision :
  (forall l, combinedStateName l = String.append "__combined_" (String.concat "__" l)) /\
  ["a__b"] <> ["a"; "b"] /\
  combinedStateName ["a__b"] = combinedStateName ["a"; "b"] /\
  isOk (snd (Build Examples.anyPattern 10 Examples.cfgCollide)) = true /\
  (let lex := Examples.builtLexer Examples.anyPattern 10 Examples.cfgCollide in
   option_map (fun st => map pushState (rules st)) (lrules lex !! "root") =
     Some ["__combined_a__b"; "__combined_a__b"] /\
   option_map rules (lrules lex !! "__combined_a__b") = option_map rules (lrules lex !! "a__b") /\
   option_map rules (lrules lex !! "__combined_a__b") <>
     Some (match lrules lex !! "a", lrules lex !! "b" with
           | Some a, Some b => rules a ++ rules b
           | _, _ => []
           end)).
Proof.
  split; [reflexivity|]. split; [intros H; injection H as _ H2; discriminate H2|].
  split; [reflexivity|]. split; [vm_compute; reflexivity|].
  split; [vm_compute; reflexivity|]. split; [vm_compute; reflexivity|].
  vm_compute. discriminate.
Qed.

(** *** Combined states *)

Lemma combinedRules_ok t sn l rs :
  combinedRules t sn l = Ok rs -> rs = concatStates t l /\ forall s, s ∈ l -> is_Some (t !! s).
Proof.
  revert rs. induction l as [|s l IH]; intros rs H.
  - cbn in H. injection H as <-. split; [reflexivity|]. intros s Hs. apply elem_of_nil in Hs as [].
  - cbn [combinedRules] in H. destruct (t !! s) as [st|] eqn:Es; [|discriminate H].
    inv_bind H. injection H as <-. destruct (IH _ E) as [-> Hl]. split.
    + cbn [concatStates flat_map]. rewrite Es. reflexivity.
    + intros s' Hs'. apply elem_of_cons in Hs' as [->|Hs']; [by rewrite Es|auto].
Qed.

Lemma concatStates_ext t t' l :
  (forall s, s ∈ l -> t !! s = t' !! s) -> concatStates t l = concatStates t' l.
Proof.
  induction l as [|s l IH]; intros H; [reflexivity|].
  cbn [concatStates flat_map]. rewrite (H s); [|by left].
  f_equal. apply IH. intros s' Hs'. apply H. by right.
Qed.

Lemma combinedPresent_grow t t' l :
  (forall k v, t !! k = Some v -> t' !! k = Some v) ->
  combinedPresent t l -> combinedPresent t' l.
Proof.
  intros Hg [Hn Hs]. split.
  - rewrite (Hg _ _ Hn). do 2 f_equal. apply concatStates_ext.
    intros s Hin. destruct (Hs s Hin) as [v Hv]. rewrite Hv. symmetry. exact (Hg _ _ Hv).
  - intros s Hin. destruct (Hs s Hin) as [v Hv]. exists v. exact (Hg _ _ Hv).
Qed.

Lemma createCombinedStateInRule_grow t sn cr t' :
  createCombinedStateInRule t sn cr = Ok t' ->
  forall k v, t !! k = Some v -> t' !! k = Some v.
Proof.
  unfold createCombinedStateInRule. intros H k v Hk. cbv zeta in H.
  destruct (config.Combined cr) as [l|]; [|injection H as <-; exact Hk].
  destruct (t !! combinedStateName l) eqn:En; [injection H as <-; exact Hk|].
  inv_bind H. injection H as <-. unfold AddState. cbn [name].
  rewrite lookup_insert_ne; [exact Hk|]. intros Heq. subst k. congruence.
Qed.

Lemma createCombinedStateInRule_present t sn cr t' l :
  createCombinedStateInRule t sn cr = Ok t' ->
  (forall l', config.Combined cr = Some l' -> combinedStateName l' = combinedStateName l -> l' = l) ->
  (combinedPresent t l \/ t !! combinedStateName l = None) ->
  (combinedPresent t' l \/ t' !! combinedStateName l = None) /\
  (config.Combined cr = Some l -> combinedPresent t' l).
Proof.
  intros H Hinj Hq.
  assert (Hgrow := createCombinedStateInRule_grow _ _ _ _ H).
  unfold createCombinedStateInRule in H. cbv zeta in H.
  destruct (config.Combined cr) as [l'|] eqn:Ec.
  2:{ injection H as <-. split; [exact Hq|discriminate]. }
  destruct (t !! combinedStateName l') as [v|] eqn:En.
  - injection H as <-. split; [exact Hq|]. intros Hl. injection Hl as ->.
    destruct Hq as [Hq|Hq]; [exact Hq|congruence].
  - inv_bind H. injection H as <-. apply combinedRules_ok in E as [-> Hsub].
    destruct (decide (combinedStateName l' = combinedStateName l)) as [Heq|Hne].
    + assert (l' = l) as -> by (apply Hinj; auto).
      assert (Hp : combinedPresent (AddState (mkStateS (combinedStateName l) (concatStates t l)) t) l).
      { unfold AddState. cbn [name]. split.
        - rewrite lookup_insert_eq. do 2 f_equal. apply concatStates_ext.
          intros s Hs. destruct (Hsub s Hs) as [w Hw].
          rewrite lookup_insert_ne; [reflexivity|]. intros Hsn. rewrite <- Hsn in Hw. congruence.
        - intros s Hs. destruct (Hsub s Hs) as [w Hw].
          rewrite lookup_insert_ne; [by rewrite Hw|]. intros Hsn. rewrite <- Hsn in Hw. congruence. }
      split; [by left|]. intros _. exact Hp.
    + split.
      * destruct Hq as [Hq|Hq].
        -- left. eapply combinedPresent_grow; [|exact Hq].
           unfold AddState. cbn [name]. intros k w Hk.
           rewrite lookup_insert_ne; [exact Hk|]. intros Heq. subst k. congruence.
        -- right. unfold AddState. cbn [name]. rewrite lookup_insert_ne; [exact Hq|congruence].
      * intros Hl. injection Hl as ->. congruence.
Qed.

Lemma createCombinedStates_present t sn crs t' l :
  createCombinedStates t sn crs = Ok t' ->
  (forall cr l', cr ∈ crs -> config.Combined cr = Some l' ->
     combinedStateName l' = combinedStateName l -> l' = l) ->
  (forall k v, t !! k = Some v -> t' !! k = Some v) /\
  ((combinedPresent t l \/ t !! combinedStateName l = None) ->
   (combinedPresent t' l \/ t' !! combinedStateName l = None) /\
   ((exists cr, cr ∈ crs /\ config.Combined cr = Some l) -> combinedPresent t' l)).
Proof.
  revert t. induction crs as [|cr crs IH]; intros t H Hinj.
  - cbn in H. injection H as <-. split; [auto|]. intros Hq. split; [exact Hq|].
    intros (cr & Hin & _). apply elem_of_nil in Hin as [].
  - cbn [createCombinedStates] in H. inv_bind H.
    assert (Hinj1 : forall l', config.Combined cr = Some l' ->
              combinedStateName l' = combinedStateName l -> l' = l)
      by (intros l'; apply Hinj; by left).
    assert (Hinj2 : forall cr' l', cr' ∈ crs -> config.Combined cr' = Some l' ->
              combinedStateName l' = combinedStateName l -> l' = l)
      by (intros cr' l' Hin; apply Hinj; by right).
    destruct (IH _ H Hinj2) as [Hg2 Hp2].
    assert (Hg1 := createCombinedStateInRule_grow _ _ _ _ E).
    split; [auto|]. intros Hq.
    destruct (createCombinedStateInRule_present _ _ _ _ _ E Hinj1 Hq) as [Hq1 Hl1].
    destruct (Hp2 Hq1) as [Hq2 Hl2]. split; [exact Hq2|].
    intros (cr' & Hin & Hc). apply elem_of_cons in Hin as [->|Hin].
    + exact (combinedPresent_grow _ _ _ Hg2 (Hl1 Hc)).
    + apply Hl2. eauto.
Qed.

Lemma createCombinedStates_grow t sn crs t' :
  createCombinedStates t sn crs = Ok t' ->
  forall k v, t !! k = Some v -> t' !! k = Some v.
Proof.
  revert t. induction crs as [|cr crs IH]; intros t H k v Hk.
  - cbn in H. injection H as <-. exact Hk.
  - cbn [createCombinedStates] in H. inv_bind H.
    exact (IH _ H k v (createCombinedStateInRule_grow _ _ _ _ E k v Hk)).
Qed.

Lemma addCombinedStates_grow t sts t' :
  addCombinedStates t sts = Ok t' ->
  forall k v, t !! k = Some v -> t' !! k = Some v.
Proof.
  revert t. induction sts as [|st sts IH]; intros t H k v Hk.
  - cbn in H. injection H as <-. exact Hk.
  - cbn [addCombinedStates] in H. inv_bind H.
    exact (IH _ H k v (createCombinedStates_grow _ _ _ _ E k v Hk)).
Qed.

Lemma addCombinedStates_present t sts t' l :
  addCombinedStates t sts = Ok t' ->
  (forall st cr l', st ∈ sts -> cr ∈ config.Rules st -> config.Combined cr = Some l' ->
     combinedStateName l' = combinedStateName l -> l' = l) ->
  (combinedPresent t l \/ t !! combinedStateName l = None) ->
  (exists st cr, st ∈ sts /\ cr ∈ config.Rules st /\ config.Combined cr = Some l) ->
  combinedPresent t' l.
Proof.
  revert t. induction sts as [|st sts IH]; intros t H Hinj Hq Hex.
  - destruct Hex as (st & cr & Hin & _). apply elem_of_nil in Hin as [].
  - cbn [addCombinedStates] in H. inv_bind H.
    destruct (createCombinedStates_present _ _ _ _ l E) as [Hg Hp];
      [intros cr l' Hin; apply (Hinj st cr l'); [by left|exact Hin]|].
    destruct (Hp Hq) as [Hq1 Hl1].
    assert (Hinj' : forall st' cr l', st' ∈ sts -> cr ∈ config.Rules st' ->
              config.Combined cr = Some l' -> combinedStateName l' = combinedStateName l -> l' = l)
      by (intros st' cr l' Hin; apply Hinj; by right).
    destruct Hex as (st' & cr & Hin & Hcr & Hc). apply elem_of_cons in Hin as [->|Hin].
    + apply (combinedPresent_grow a); [exact (addCombinedStates_grow _ _ _ H)|].
      apply Hl1. eauto.
    + exact (IH _ H Hinj' Hq1 ltac:(eauto)).
Qed.

Lemma addStates_keys acc t sts t' k v :
  addStates acc t sts = Ok t' -> t' !! k = Some v ->
  (exists v0, t !! k = Some v0) \/ k ∈ map config.Name sts.
Proof.
  revert t. induction sts as [|st sts IH]; intros t H Hk.
  - cbn in H. injection H as <-. left. eauto.
  - cbn [addStates] in H. inv_bind H.
    destruct (IH _ H Hk) as [(v0 & Hv0)|Hin].
    + unfold AddState in Hv0. cbn [name] in Hv0. rewrite lookup_insert in Hv0.
      case_decide as Heq.
      * right. cbn [map]. rewrite Heq. by left.
      * left. eauto.
    + right. cbn [map]. by right.
Qed.

Lemma mem_false x l : mem x l = false -> x ∉ l.
Proof.
  unfold mem. intros H Hin. apply list_elem_of_In in Hin.
  assert (existsb (String.eqb x) l = true) as Ht
    by (apply existsb_exists; exists x; split; [exact Hin|apply String.eqb_refl]).
  congruence.
Qed.

Lemma configCombineds_in cfg st cr l :
  st ∈ config.States cfg -> cr ∈ config.Rules st -> config.Combined cr = Some l ->
  l ∈ configCombineds cfg.
Proof.
  intros Hst Hcr Hc. unfold configCombineds. apply list_elem_of_In, in_flat_map.
  exists st. split; [by apply list_elem_of_In|].
  apply in_flat_map. exists cr. split; [by apply list_elem_of_In|]. rewrite Hc. by left.
Qed.

Lemma configCombineds_declared cfg l :
  l ∈ configCombineds cfg ->
  exists st cr, st ∈ config.States cfg /\ cr ∈ config.Rules st /\ config.Combined cr = Some l.
Proof.
  unfold configCombineds. intros H. apply list_elem_of_In, in_flat_map in H as (st & Hst & H).
  apply in_flat_map in H as (cr & Hcr & H).
  destruct (config.Combined cr) as [l'|] eqn:Hc; [|destruct H].
  destruct H as [<-|[]]. exists st, cr. rewrite !list_elem_of_In. auto.
Qed.

Lemma expand_flat_map {A} m (f : A -> list rule) (l : list A) :
  expandIncludes m (flat_map f l) = flat_map (fun x => expandIncludes m (f x)) l.
Proof.
  unfold expandIncludes. induction l as [|x l IH]; [reflexivity|].
  cbn [flat_map]. rewrite flat_map_app. f_equal. exact IH.
Qed.

Lemma flat_map_ext_elem {A B} (f g : A -> list B) (l : list A) :
  (forall x, x ∈ l -> f x = g x) -> flat_map f l = flat_map g l.
Proof.
  induction l as [|x l IH]; intros H; [reflexivity|].
  cbn [flat_map]. rewrite (H x); [|by left]. f_equal. apply IH. intros y Hy. apply H. by right.
Qed.

Lemma checkRule_combined_no_push cr l :
  checkRule cr = None -> config.Combined cr = Some l -> config.Push cr = None.
Proof.
  destruct cr as [pat [tk|] [pu|] [po|] [inc|] [cb|] [bg|] [us|]];
    unfold checkRule; cbn [config.Pattern config.Token config.Push config.Pop config.Include
    config.Combined config.ByGroups config.UsingSelf];
    destruct (String.eqb pat ""); cbn; congruence.
Qed.

Lemma setRuleFieldsFrom_pushState r cr r' :
  setRuleFieldsFrom r cr = Ok r' -> config.Push cr = None -> pushState r' = pushState r.
Proof.
  unfold setRuleFieldsFrom. intros H Hp. rewrite Hp in H.
  inv_bind H.
  assert (Ha : pushState a = pushState r).
  { destruct (config.Token cr); [|injection E as <-; reflexivity].
    inv_bind E. injection E as <-. reflexivity. }
  inv_bind H.
  assert (Ha0 : pushState a0 = pushState a).
  { destruct (config.ByGroups cr);
      [inv_bind E0; injection E0 as <-|injection E0 as <-];
      destruct (config.Pop cr), (config.Include cr); reflexivity. }
  injection H as <-. rewrite <- Ha, <- Ha0.
  destruct (config.UsingSelf cr); reflexivity.
Qed.

Lemma ruleSequence_combined_push acc crs rs l :
  ruleSequence acc crs = Ok rs ->
  Forall2 (fun cr r => config.Combined cr = Some l -> pushState r = combinedStateName l) crs rs.
Proof.
  revert rs. induction crs as [|cr crs IH]; intros rs H.
  - cbn in H. injection H as <-. constructor.
  - cbn [ruleSequence] in H. cbv zeta in H. inv_bind H. inv_bind H. inv_bind H. inv_bind H.
    injection H as <-. constructor; [|exact (IH _ E2)].
    intros Hc. unfold check in E. destruct (checkRule cr) eqn:Hchk; [discriminate E|].
    rewrite (setRuleFieldsFrom_pushState _ _ _ E1 (checkRule_combined_no_push _ _ Hchk Hc)).
    unfold updatePushForCombinedState. rewrite Hc. reflexivity.
Qed.

(** C6, counterexample: ["a"; "b"] gets the name of ["a__b"], which was
    synthesized first, so the state its rule pushes is not the
    concatenation of the rules of a and b. *)
Lemma Build_combined_collision_not_concat :
  isOk (snd (Build Examples.anyPattern 10 Examples.cfgCollide)) = true /\
  option_map rules
    (lrules (Examples.builtLexer Examples.anyPattern 10 Examples.cfgCollide)
       !! combinedStateName ["a"; "b"]) <>
  Some (concatStates (lrules (Examples.builtLexer Examples.anyPattern 10 Examples.cfgCollide))
          ["a"; "b"]).
Proof. split; vm_compute; [reflexivity|discriminate]. Qed.

(** C6, as amended: every rule declaring Combined l pushes the name
    combinedStateName l, so rules declaring the same list share one
    state; when that name belongs to no configured state and to no other
    declared list, the state is the concatenation of the listed states'
    resolved rules in the order of l. *)
Theorem Build_combined_state acc fuel cfg lex l :
  snd (Build acc fuel cfg) = Ok (lex, None) ->
  existsb (fun l' => bool_decide (l' = l)) (configCombineds cfg) = true ->
  mem (combinedStateName l) (map config.Name (config.States cfg)) = false ->
  nameOnlyFor cfg l = true ->
  (exists st, lrules lex !! combinedStateName l = Some st /\
     rules st = concatStates (lrules lex) l /\ forall s, s ∈ l -> is_Some (lrules lex !! s)) /\
  (forall crs rs, ruleSequence acc crs = Ok rs ->
     Forall2 (fun cr r => config.Combined cr = Some l -> pushState r = combinedStateName l) crs rs).
Proof.
  intros HB Hdecl Hnames Honly. split; [|intros crs rs; apply ruleSequence_combined_push].
  apply Build_snd_Ok in HB as (t & t' & Hb & Hr & -> & _). cbn [lrules].
  unfold build in Hb. inv_bind Hb. rename a into t0.
  assert (Hnone : t0 !! combinedStateName l = None).
  { destruct (t0 !! combinedStateName l) as [v|] eqn:Hv; [|reflexivity].
    destruct (addStates_keys _ _ _ _ _ _ E Hv) as [(v0 & Hv0)|Hin].
    - by rewrite lookup_empty in Hv0.
    - by apply mem_false in Hnames. }
  assert (Hinj : forall st cr l', st ∈ config.States cfg -> cr ∈ config.Rules st ->
            config.Combined cr = Some l' -> combinedStateName l' = combinedStateName l -> l' = l).
  { intros st cr l' Hst Hcr Hc Hn.
    assert (Hl' := configCombineds_in _ _ _ _ Hst Hcr Hc).
    unfold nameOnlyFor in Honly. rewrite forallb_forall in Honly.
    specialize (Honly l' (proj1 (list_elem_of_In _ _) Hl')).
    rewrite Hn, String.eqb_refl in Honly. cbn in Honly. exact (bool_decide_eq_true_1 _ Honly). }
  assert (Hex : exists st cr, st ∈ config.States cfg /\ cr ∈ config.Rules st /\
                              config.Combined cr = Some l).
  { apply existsb_exists in Hdecl as (l' & Hin & Heq). apply bool_decide_eq_true_1 in Heq.
    subst l'. apply configCombineds_declared. by apply list_elem_of_In. }
  destruct (addCombinedStates_present _ _ _ l Hb Hinj (or_intror Hnone) Hex) as [Hn Hsub].
  destruct (resolveIncludes_fwd _ _ _ _ _ Hr Hn) as (lc & Hlc & Hmc).
  exists (mkStateS (name (mkStateS (combinedStateName l) (concatStates t l))) lc).
  split; [exact Hmc|]. split.
  - cbn [rules]. rewrite (resolve_expand _ _ _ Hr _ _ _ Hlc).
    unfold concatStates. cbn [rules]. rewrite expand_flat_map. apply flat_map_ext_elem.
    intros s Hs. destruct (Hsub s Hs) as [sts Hsts]. rewrite Hsts.
    destruct (resolveIncludes_fwd _ _ _ _ _ Hr Hsts) as (ls & Hls & Hms).
    rewrite Hms. cbn [rules]. symmetry. exact (resolve_expand _ _ _ Hr _ _ _ Hls).
  - intros s Hs. destruct (Hsub s Hs) as [sts Hsts].
    destruct (resolveIncludes_fwd _ _ _ _ _ Hr Hsts) as (ls & _ & Hms). rewrite Hms. eauto.
Qed.

Lemma Build_combined_state_witness :
  snd (Build Examples.anyPattern 10 Examples.cfgCombined) =
    Ok (Examples.builtLexer Examples.anyPattern 10 Examples.cfgCombined, None) /\
  existsb (fun l' => bool_decide (l' = ["a"; "b"])) (configCombineds Examples.cfgCombined) = true /\
  mem (combinedStateName ["a"; "b"]) (map config.Name (config.States Examples.cfgCombined)) = false /\
  nameOnlyFor Examples.cfgCombined ["a"; "b"] = true /\
  ((exists st, lrules (Examples.builtLexer Examples.anyPattern 10 Examples.cfgCombined)
                 !! combinedStateName ["a"; "b"] = Some st /\
     rules st = concatStates (lrules (Examples.builtLexer Examples.anyPattern 10 Examples.cfgCombined))
                  ["a"; "b"] /\
     forall s, s ∈ ["a"; "b"] ->
       is_Some (lrules (Examples.builtLexer Examples.anyPattern 10 Examples.cfgCombined) !! s)) /\
   (forall crs rs, ruleSequence Examples.anyPattern crs = Ok rs ->
      Forall2 (fun cr r => config.Combined cr = Some ["a"; "b"] ->
                           pushState r = combinedStateName ["a"; "b"]) crs rs)).
Proof.
  assert (H1 : snd (Build Examples.anyPattern 10 Examples.cfgCombined) =
    Ok (Examples.builtLexer Examples.anyPattern 10 Examples.cfgCombined, None))
    by (vm_compute; reflexivity).
  assert (H2 : existsb (fun l' => bool_decide (l' = ["a"; "b"]))
                 (configCombineds Examples.cfgCombined) = true) by (vm_compute; reflexivity).
  assert (H3 : mem (combinedStateName ["a"; "b"])
                 (map config.Name (config.States Examples.cfgCombined)) = false)
    by (vm_compute; reflexivity).
  assert (H4 : nameOnlyFor Examples.cfgCombined ["a"; "b"] = true) by (vm_compute; reflexivity).
  split; [exact H1|]. split; [exact H2|]. split; [exact H3|]. split; [exact H4|].
  exact (Build_combined_state _ _ _ _ _ H1 H2 H3 H4).
Defined.

Module TokenizerFacts.
Import Tokenizer.

Section Facts.
Variable regexp_match : Regexp -> list ascii -> nat -> option MatchResult.
Variable table : rulesTable.

Lemma run_stop f stk text p :
  length text <= p -> run regexp_match table (S f) stk text p = Some [].
Proof. intros H. cbn [run]. by rewrite (proj2 (Nat.leb_le _ _) H). Qed.

Lemma run_no_match f stk text p :
  p < length text ->
  firstMatch regexp_match (stateRules table (topState stk)) text p = None ->
  run regexp_match table (S f) stk text p =
    (rest ← run regexp_match table f stk text (S p); Some (mkToken Error p 1 :: rest)).
Proof.
  intros Hp Hn. cbn [run]. rewrite (proj2 (Nat.leb_gt _ _) Hp). cbv zeta. by rewrite Hn.
Qed.

Lemma run_match f stk text p r m toks stk' :
  p < length text ->
  firstMatch regexp_match (stateRules table (topState stk)) text p = Some (r, m) ->
  action (fun s t => run regexp_match table f [s] t 0) text p r m stk = Some (toks, stk') ->
  run regexp_match table (S f) stk text p =
    if Nat.eqb (mlen m) 0 && list_string_eqb stk' stk then
      rest ← run regexp_match table f stk text (S p); Some (mkToken Error p 1 :: rest)
    else rest ← run regexp_match table f stk' text (p + mlen m); Some (toks ++ rest).
Proof.
  intros Hp Hm Ha. cbn [run]. rewrite (proj2 (Nat.leb_gt _ _) Hp). cbv zeta.
  rewrite Hm. by rewrite Ha.
Qed.

Lemma list_string_eqb_refl l : list_string_eqb l l = true.
Proof. unfold list_string_eqb. by apply bool_decide_eq_true_2. Qed.

Lemma firstMatch_some rs text p r m :
  firstMatch regexp_match rs text p = Some (r, m) ->
  r ∈ rs /\ exists re, pattern r = Some re /\ regexp_match re text p = Some m.
Proof.
  induction rs as [|r0 rs IH]; cbn [firstMatch]; [discriminate|].
  destruct (pattern r0) as [re|] eqn:Hpat.
  - destruct (regexp_match re text p) as [m0|] eqn:Hre.
    + intros H. injection H as <- <-. split; [by left|eauto].
    + intros H. destruct (IH H) as [Hin Hx]. split; [by right|exact Hx].
  - intros H. destruct (IH H) as [Hin Hx]. split; [by right|exact Hx].
Qed.

Lemma stateRules_in s r :
  r ∈ stateRules table s -> exists st, table !! s = Some st /\ r ∈ rules st.
Proof.
  unfold stateRules. destruct (table !! s) as [st|]; [eauto|].
  intros H. by apply elem_of_nil in H.
Qed.

Lemma noUsingSelf_rule s st r :
  noUsingSelf table = true -> table !! s = Some st -> r ∈ rules st ->
  useSelfState r = "" /\ Forall (fun ge => ge_useSelfState ge = "") (byGroups r).
Proof.
  intros H Hs Hr. unfold noUsingSelf in H. rewrite forallb_forall in H.
  assert (Hkv : In (s, st) (map_to_list table))
    by (apply list_elem_of_In, elem_of_map_to_list; exact Hs).
  specialize (H _ Hkv). cbn [snd] in H. rewrite forallb_forall in H.
  specialize (H r (proj1 (list_elem_of_In _ _) Hr)).
  apply andb_prop in H as [H1 H2]. split; [by apply String.eqb_eq|].
  rewrite forallb_forall in H2. apply Forall_forall. intros ge Hge.
  apply String.eqb_eq, H2, list_elem_of_In, Hge.
Qed.

Lemma noZeroGrowth_rule text s st r re q m :
  noZeroGrowth regexp_match table text = true -> table !! s = Some st -> r ∈ rules st ->
  pattern r = Some re -> q < length text -> regexp_match re text q = Some m ->
  mlen m = 0 -> growing r = false.
Proof.
  intros H Hs Hr Hpat Hq Hm Hz. unfold noZeroGrowth in H. rewrite forallb_forall in H.
  assert (Hkv : In (s, st) (map_to_list table))
    by (apply list_elem_of_In, elem_of_map_to_list; exact Hs).
  specialize (H _ Hkv). cbn [snd] in H. rewrite forallb_forall in H.
  specialize (H r (proj1 (list_elem_of_In _ _) Hr)).
  destruct (growing r); [|reflexivity]. cbn in H. rewrite Hpat, forallb_forall in H.
  assert (Hin : In q (seq 0 (length text))) by (apply in_seq; lia).
  specialize (H q Hin). rewrite Hm, Hz in H. discriminate H.
Qed.

Lemma action_noself sub text p r m stk :
  useSelfState r = "" -> Forall (fun ge => ge_useSelfState ge = "") (byGroups r) ->
  exists toks, action sub text p r m stk =
    Some (toks, if bool_decide (byGroups r = []) then applyPushPop r stk else stk).
Proof.
  intros Hu Hg. unfold action.
  destruct (bool_decide (byGroups r = [])); cbn [negb].
  - rewrite Hu. cbn. eauto.
  - revert Hg. generalize (mgroups m). generalize (byGroups r).
    intros ges gs Hg.
    assert (exists toks,
      (fix groups (ges : list byGroupElement) (gs : list (nat * nat)) : option (list Token) :=
         match ges, gs with
         | ge :: ges', (gs0, gl) :: gs' =>
             here ←
               (if String.eqb (ge_useSelfState ge) "" then
                  match ge_tok ge with
                  | Some t => Some [mkToken t (p + gs0) gl]
                  | None => Some []
                  end
                else
                  sub_toks ← sub (ge_useSelfState ge) (substr text (p + gs0) gl);
                  Some (rebase (p + gs0) sub_toks));
             rest ← groups ges' gs';
             Some (here ++ rest)
         | _, _ => Some []
         end) ges gs = Some toks) as [toks Htoks].
    { revert gs. induction Hg as [|ge ges Hge Hg IH]; intros gs; [by exists []|].
      destruct gs as [|[gs0 gl] gs]; [by exists []|].
      destruct (IH gs) as [rest Hrest]. rewrite Hge. cbn [String.eqb].
      destruct (ge_tok ge); cbn; rewrite Hrest; eexists; reflexivity. }
    rewrite Htoks. cbn. eauto.
Qed.

Lemma length_drop_lt {A} (n : nat) (l : list A) :
  n <> 0 -> n <= length l - 1 -> drop n l <> l -> length (drop n l) < length l.
Proof. intros Hn Hle _. rewrite length_drop. lia. Qed.

Lemma applyPushPop_nongrow r stk :
  growing r = false ->
  applyPushPop r stk <> stk -> length (applyPushPop r stk) < length stk.
Proof.
  unfold growing, applyPushPop. intros Hg Hne.
  destruct (String.eqb (pushState r) "#pop") eqn:Hpop.
  - destruct (decide (Nat.min 1 (length stk - 1) = 0)) as [Hz|Hz].
    + rewrite Hz, drop_0 in Hne. by destruct Hne.
    + rewrite length_drop. lia.
  - destruct (String.eqb (pushState r) "") eqn:He; [|cbn in Hg; discriminate Hg].
    assert (Hpush : String.eqb (pushState r) "#push" = false).
    { apply String.eqb_eq in He. by rewrite He. }
    rewrite Hpush in Hne |- *. cbn [negb] in Hne |- *.
    destruct (Nat.ltb 0 (popDepth r)); [|by destruct Hne].
    destruct (decide (Nat.min (popDepth r) (length stk - 1) = 0)) as [Hz|Hz].
    + rewrite Hz, drop_0 in Hne. by destruct Hne.
    + rewrite length_drop. lia.
Qed.

Lemma run_completes text :
  noUsingSelf table = true -> noZeroGrowth regexp_match table text = true ->
  forall fuel stk p, 2 * (length text - p) + length stk < fuel ->
  is_Some (run regexp_match table fuel stk text p).
Proof.
  intros Hus Hzg fuel. induction fuel as [|f IH]; intros stk p Hf; [lia|].
  destruct (decide (length text <= p)) as [Hle|Hlt].
  { rewrite run_stop by exact Hle. eauto. }
  apply not_le in Hlt.
  assert (Hfb : is_Some (rest ← run regexp_match table f stk text (S p);
                         Some (mkToken Error p 1 :: rest))).
  { destruct (IH stk (S p)) as [rest Hrest]; [lia|]. rewrite Hrest. cbn. eauto. }
  destruct (firstMatch regexp_match (stateRules table (topState stk)) text p)
    as [[r m]|] eqn:Hfm.
  2:{ rewrite run_no_match by assumption. exact Hfb. }
  destruct (firstMatch_some _ _ _ _ _ Hfm) as (Hr & re & Hpat & Hre).
  destruct (stateRules_in _ _ Hr) as (st & Hst & Hrst).
  destruct (noUsingSelf_rule _ _ _ Hus Hst Hrst) as [Hu Hg].
  destruct (action_noself (fun s t => run regexp_match table f [s] t 0) text p r m stk Hu Hg)
    as [toks Ha].
  rewrite (run_match _ _ _ _ _ _ _ _ Hlt Hfm Ha).
  set (stk' := if bool_decide (byGroups r = []) then applyPushPop r stk else stk).
  destruct (Nat.eqb (mlen m) 0 && list_string_eqb stk' stk) eqn:Hz; [exact Hfb|].
  assert (Hmeas : 2 * (length text - (p + mlen m)) + length stk' < f).
  { destruct (decide (mlen m = 0)) as [H0|H0].
    - rewrite H0, Nat.add_0_r.
      assert (Hne : stk' <> stk).
      { intros Heq. rewrite H0, Heq, list_string_eqb_refl in Hz. discriminate Hz. }
      assert (Hgr := noZeroGrowth_rule _ _ _ _ _ _ _ Hzg Hst Hrst Hpat Hlt Hre H0).
      unfold stk' in Hne |- *. destruct (bool_decide (byGroups r = [])); [|by destruct Hne].
      assert (Hl := applyPushPop_nongrow r stk Hgr Hne). lia.
    - assert (Hl : length stk' <= S (length stk)).
      { unfold stk'. destruct (bool_decide (byGroups r = [])); [|lia].
        unfold applyPushPop.
        destruct (String.eqb (pushState r) "#pop"); [rewrite length_drop; lia|].
        destruct (String.eqb (pushState r) "#push"); [destruct stk; cbn; lia|].
        destruct (negb (String.eqb (pushState r) "")); [cbn; lia|].
        destruct (Nat.ltb 0 (popDepth r)); [rewrite length_drop|]; lia. }
      lia. }
  destruct (IH stk' (p + mlen m) Hmeas) as [rest Hrest]. rewrite Hrest. cbn. eauto.
Qed.

End Facts.

End TokenizerFacts.

Lemma list_string_eqb_grow (x : string) (l : list string) :
  Tokenizer.list_string_eqb (x :: l) l = false.
Proof.
  unfold Tokenizer.list_string_eqb. apply bool_decide_eq_false_2.
  intros H. apply (f_equal length) in H. cbn in H. lia.
Qed.

(** C3, counterexample: root pushes root on the empty string.  Every
    step is a zero-length match that changes the stack, so the fallback
    never fires and the session on "x" runs out of every fuel, although
    Build accepts the grammar. *)
Lemma tokenise_zero_push_diverges :
  isOk (snd (Build Examples.anyPattern 10 Examples.cfgLoop)) = true /\
  forall fuel, Tokenizer.tokenise Examples.litMatcher Examples.tblLoop fuel ["x"%char] = None.
Proof.
  split; [vm_compute; reflexivity|].
  assert (Hfm : Tokenizer.firstMatch Examples.litMatcher
                  (Tokenizer.stateRules Examples.tblLoop "root") ["x"%char] 0 =
                Some (Examples.loopRuleS, Tokenizer.mkMatch 0 [])) by (vm_compute; reflexivity).
  assert (Hrun : forall fuel rest,
            Tokenizer.run Examples.litMatcher Examples.tblLoop fuel ("root" :: rest) ["x"%char] 0
            = None).
  { intros fuel. induction fuel as [|f IH]; intros rest; [reflexivity|].
    rewrite (TokenizerFacts.run_match _ _ f ("root" :: rest) ["x"%char] 0
               Examples.loopRuleS (Tokenizer.mkMatch 0 []) [] ("root" :: "root" :: rest));
      [|cbn; lia|exact Hfm|reflexivity].
    rewrite list_string_eqb_grow, andb_false_r, IH. reflexivity. }
  intros fuel. exact (Hrun fuel []).
Qed.

(** C3, as amended (spec-modelled tokenizer): at a position inside the
    text, when no rule of the top state matches, or the matched rule
    consumes nothing and leaves the stack as it is, the step emits one
    Error token of length one at [p] and goes on at [p + 1]; and a session
    runs to the end of the text (within 2 * (remaining length) + (stack
    depth) steps) when no rule runs a nested session and no rule whose
    Push grows the stack matches the empty string. *)
Theorem run_error_fallback_completes rm tbl text :
  (forall f stk p, p < length text ->
     (Tokenizer.firstMatch rm (Tokenizer.stateRules tbl (Tokenizer.topState stk)) text p = None \/
      exists r m toks,
        Tokenizer.firstMatch rm (Tokenizer.stateRules tbl (Tokenizer.topState stk)) text p
          = Some (r, m) /\
        Tokenizer.action (fun s t => Tokenizer.run rm tbl f [s] t 0) text p r m stk
          = Some (toks, stk) /\
        Tokenizer.mlen m = 0) ->
     Tokenizer.run rm tbl (S f) stk text p =
       (rest ← Tokenizer.run rm tbl f stk text (S p);
        Some (Tokenizer.mkToken Error p 1 :: rest))) /\
  (Tokenizer.noUsingSelf tbl = true -> Tokenizer.noZeroGrowth rm tbl text = true ->
   forall fuel stk p, 2 * (length text - p) + length stk < fuel ->
   is_Some (Tokenizer.run rm tbl fuel stk text p)).
Proof.
  split.
  - intros f stk p Hp [Hn|(r & m & toks & Hm & Ha & Hz)].
    + exact (TokenizerFacts.run_no_match _ _ _ _ _ _ Hp Hn).
    + rewrite (TokenizerFacts.run_match _ _ _ _ _ _ _ _ _ _ Hp Hm Ha).
      by rewrite Hz, TokenizerFacts.list_string_eqb_refl.
  - apply TokenizerFacts.run_completes.
Qed.

Lemma run_error_fallback_completes_witness :
  Tokenizer.noUsingSelf Examples.tblLit = true /\
  Tokenizer.noZeroGrowth Examples.litMatcher Examples.tblLit Examples.textLit = true /\
  is_Some (Tokenizer.run Examples.litMatcher Examples.tblLit 12 ["root"] Examples.textLit 0) /\
  Tokenizer.run Examples.litMatcher Examples.tblLit 11 ["root"] Examples.textLit 1 =
    (rest ← Tokenizer.run Examples.litMatcher Examples.tblLit 10 ["root"] Examples.textLit 2;
     Some (Tokenizer.mkToken Error 1 1 :: rest)).
Proof.
  destruct (run_error_fallback_completes Examples.litMatcher Examples.tblLit Examples.textLit)
    as [Hfb Hc].
  assert (H1 : Tokenizer.noUsingSelf Examples.tblLit = true) by (vm_compute; reflexivity).
  assert (H2 : Tokenizer.noZeroGrowth Examples.litMatcher Examples.tblLit Examples.textLit = true)
    by (vm_compute; reflexivity).
  split; [exact H1|]. split; [exact H2|]. split.
  - apply (Hc H1 H2 12 ["root"] 0). vm_compute. lia.
  - apply (Hfb 10 ["root"] 1); [vm_compute; lia|]. left. vm_compute. reflexivity.
Defined.

(* ------------------------------------------------------------------ *)
(** ** The registry *)

Lemma lookup_insert_same {V} (m : gmap string V) (i k : string) (x : V) :
  i = k \/ m !! k = Some x -> <[i := x]> m !! k = Some x.
Proof. intros H. rewrite lookup_insert. case_decide; [reflexivity|]. destruct H; [congruence|exact H]. Qed.

Lemma registerAliases_lookup low lexer m al k :
  (k ∈ al \/ k ∈ map low al \/ m !! k = Some lexer) ->
  registerAliases low lexer m al !! k = Some lexer.
Proof.
  unfold registerAliases. revert m. induction al as [|a al IH]; intros m H; cbn [foldl].
  - destruct H as [H|[H|H]]; [by apply elem_of_nil in H|by apply elem_of_nil in H|exact H].
  - apply IH. destruct H as [H|[H|H]].
    + apply elem_of_cons in H as [->|H]; [|by left].
      right; right. apply lookup_insert_same. right. by apply lookup_insert_same; left.
    + cbn [map] in H. apply elem_of_cons in H as [->|H]; [|by right; left].
      right; right. apply lookup_insert_same. by left.
    + right; right. apply lookup_insert_same. right. apply lookup_insert_same. by right.
Qed.

(** X1: after Register, Get finds the lexer by its name, by any string
    that is neither a name key nor an alias key and lower-cases like the
    name, and by each of its aliases that is not a name key; the lexer is
    appended to Lexers. *)
Theorem Register_then_Get fm low reg lexer :
  let reg' := fst (Register low reg lexer) in
  let n := config.LexerName (cfgConfig lexer) in
  Get fm low reg' n = Ok (Some lexer) /\
  (forall s, byName reg' !! s = None -> byAlias reg' !! s = None -> low s = low n ->
     Get fm low reg' s = Ok (Some lexer)) /\
  (forall a, a ∈ config.Aliases (cfgConfig lexer) -> byName reg' !! a = None ->
     Get fm low reg' a = Ok (Some lexer)) /\
  Lexers reg' = Lexers reg ++ [lexer].
Proof.
  cbv zeta. split; [|split; [|split]].
  - unfold Get. cbn [Register fst byName].
    rewrite lookup_insert_same; [reflexivity|]. right. by apply lookup_insert_same; left.
  - intros s Hn Ha Hl. unfold Get. rewrite Hn, Ha. cbn [Register fst byName] in Hn |- *.
    rewrite Hl, lookup_insert_same; [reflexivity|by left].
  - intros a Hin Hn. unfold Get. rewrite Hn. cbn [Register fst byAlias].
    rewrite registerAliases_lookup; [reflexivity|by left].
  - reflexivity.
Qed.

Lemma Register_then_Get_witness :
  Get Examples.simpleGlob Examples.asciiLower
    (fst (Register Examples.asciiLower Examples.regThree Examples.pyLexer)) "PYTHON" =
    Ok (Some Examples.pyLexer) /\
  Get Examples.simpleGlob Examples.asciiLower
    (fst (Register Examples.asciiLower Examples.regThree Examples.pyLexer)) "Py3" =
    Ok (Some Examples.pyLexer).
Proof.
  destruct (Register_then_Get Examples.simpleGlob Examples.asciiLower Examples.regThree
              Examples.pyLexer) as (_ & H2 & H3 & _).
  split.
  - apply H2; vm_compute; reflexivity.
  - apply H3; [vm_compute; right; left|vm_compute; reflexivity].
Defined.

Lemma find_app {A} (f : A -> bool) (l1 l2 : list A) :
  find f (l1 ++ l2) = match find f l1 with Some x => Some x | None => find f l2 end.
Proof. induction l1 as [|x l1 IH]; [reflexivity|]. cbn. destruct (f x); [reflexivity|exact IH]. Qed.

Lemma find_none_intro {A} (f : A -> bool) (l : list A) :
  (forall x, In x l -> f x = false) -> find f l = None.
Proof.
  induction l as [|x l IH]; intros H; [reflexivity|]. cbn.
  rewrite (H x (or_introl eq_refl)). apply IH. intros y Hy. apply H. by right.
Qed.

Lemma checkGlobs_find fm gs fn :
  checkGlobs fm gs fn =
  match find (fun g => isNil (fm g fn)) gs with Some g => Panic (EBadGlob g) | None => Ok tt end.
Proof.
  induction gs as [|g gs IH]; [reflexivity|]. cbn [checkGlobs find].
  destruct (fm g fn); cbn; [exact IH|reflexivity].
Qed.

Lemma checkLexers_find fm ls fn :
  checkLexers fm ls fn =
  match find (fun g => isNil (fm g fn)) (flat_map (fun l => config.Filenames (cfgConfig l)) ls) with
  | Some g => Panic (EBadGlob g)
  | None => Ok tt
  end.
Proof.
  induction ls as [|l ls IH]; [reflexivity|]. cbn [checkLexers flat_map].
  rewrite checkGlobs_find, find_app.
  destruct (find (fun g => isNil (fm g fn)) (config.Filenames (cfgConfig l))); [reflexivity|].
  exact IH.
Qed.

Lemma Match_find fm reg filename :
  Match fm reg filename =
  match find (fun g => isNil (fm g (filepath_Base filename)))
             (flat_map (fun l => config.Filenames (cfgConfig l)) (Lexers reg)) with
  | Some g => Panic (EBadGlob g)
  | None => Ok None
  end.
Proof.
  unfold Match. rewrite checkLexers_find.
  destruct (find _ _); reflexivity.
Qed.

(** X2: Match panics with the first glob, in registration order, that
    filepath.Match rejects for the base name of the file, and otherwise
    returns nil; one malformed glob in any registered lexer makes every
    Match panic. *)
Theorem Match_first_bad_glob fm reg filename :
  Match fm reg filename =
  match find (fun g => isNil (fm g (filepath_Base filename)))
             (flat_map (fun l => config.Filenames (cfgConfig l)) (Lexers reg)) with
  | Some g => Panic (EBadGlob g)
  | None => Ok None
  end.
Proof. exact (Match_find fm reg filename). Qed.

(** X3: Get of a string that is not a key of the name or alias maps,
    and whose lower-case form is not either, returns nil or panics with a
    malformed glob: the filename fallback never yields a lexer; with
    well-formed globs it returns nil. *)
Theorem Get_unregistered fm low reg name :
  byName reg !! name = None -> byAlias reg !! name = None ->
  byName reg !! low name = None -> byAlias reg !! low name = None ->
  (Get fm low reg name = Ok None \/ exists g, Get fm low reg name = Panic (EBadGlob g)) /\
  ((forall l g s, l ∈ Lexers reg -> g ∈ config.Filenames (cfgConfig l) -> is_Some (fm g s)) ->
   Get fm low reg name = Ok None).
Proof.
  intros H1 H2 H3 H4. unfold Get. rewrite H1, H2, H3, H4.
  rewrite !Match_find.
  set (gs := flat_map (fun l => config.Filenames (cfgConfig l)) (Lexers reg)).
  split.
  - destruct (find _ gs) as [g1|]; destruct (find _ gs) as [g2|]; cbn;
      first [left; reflexivity|right; eexists; reflexivity].
  - intros Hok.
    assert (Hnone : forall s, find (fun g => isNil (fm g s)) gs = None).
    { intros s. apply find_none_intro. intros g0 Hg.
      apply in_flat_map in Hg as (l & Hl & Hg).
      destruct (Hok l g0 s) as [b Hb]; [by apply list_elem_of_In|by apply list_elem_of_In|].
      rewrite Hb. reflexivity. }
    rewrite !Hnone. reflexivity.
Qed.

Lemma Get_unregistered_witness :
  Get Examples.simpleGlob Examples.asciiLower NewLexerRegistry "main.rs" = Ok None /\
  (Get Examples.simpleGlob Examples.asciiLower Examples.regThree "Rust" = Ok None \/
   exists g, Get Examples.simpleGlob Examples.asciiLower Examples.regThree "Rust" =
               Panic (EBadGlob g)).
Proof.
  split.
  - apply (Get_unregistered Examples.simpleGlob Examples.asciiLower NewLexerRegistry "main.rs");
      try reflexivity.
    intros l g s Hl. cbn in Hl. by apply elem_of_nil in Hl.
  - apply (Get_unregistered Examples.simpleGlob Examples.asciiLower Examples.regThree "Rust");
      vm_compute; reflexivity.
Defined.

Lemma bestOf_in b ls : bestOf b ls ∈ b :: ls.
Proof.
  revert b. induction ls as [|l ls IH]; intros b; cbn [bestOf]; [by left|].
  destruct (prioritisedLess l b).
  - specialize (IH l). apply elem_of_cons in IH as [->|H]; [by right; left|by right; right].
  - specialize (IH b). apply elem_of_cons in IH as [->|H]; [by left|by right; right].
Qed.

Lemma bestOf_max b ls x :
  x ∈ b :: ls -> (effectivePriority x <= effectivePriority (bestOf b ls))%Z.
Proof.
  revert b x. induction ls as [|l ls IH]; intros b x Hx; cbn [bestOf].
  - apply elem_of_cons in Hx as [->|Hx]; [lia|by apply elem_of_nil in Hx].
  - unfold prioritisedLess. destruct (Z.ltb (effectivePriority b) (effectivePriority l)) eqn:E.
    + apply Z.ltb_lt in E. apply elem_of_cons in Hx as [->|Hx].
      * specialize (IH l l ltac:(by left)). lia.
      * apply IH. exact Hx.
    + apply Z.ltb_ge in E. apply elem_of_cons in Hx as [->|Hx]; [apply IH; by left|].
      apply elem_of_cons in Hx as [->|Hx].
      * specialize (IH b b ltac:(by left)). lia.
      * apply IH. by right.
Qed.

Lemma mime_matched_elem reg mt x :
  x ∈ flat_map (fun l =>
        flat_map (fun lmt => if String.eqb mt lmt then [l] else [])
          (config.MimeTypes (cfgConfig l))) (Lexers reg) <->
  x ∈ Lexers reg /\ mt ∈ config.MimeTypes (cfgConfig x).
Proof.
  rewrite !list_elem_of_In, in_flat_map. split.
  - intros (l & Hl & Hin). apply in_flat_map in Hin as (lmt & Hlmt & Hin).
    destruct (String.eqb mt lmt) eqn:E; [|destruct Hin].
    destruct Hin as [<-|[]]. apply String.eqb_eq in E. subst lmt.
    split; [exact Hl|exact Hlmt].
  - intros [Hx Hmt]. exists x. split; [exact Hx|]. apply in_flat_map.
    exists mt. split; [exact Hmt|]. rewrite String.eqb_refl. by left.
Qed.

(** X4: MatchMimeType returns nil exactly when no registered lexer lists
    the MIME type; otherwise it returns a registered lexer that lists it
    and whose priority (0 counting as 1) is the highest among those. *)
Theorem MatchMimeType_best reg mt :
  (MatchMimeType reg mt = None <->
     forall l, l ∈ Lexers reg -> mt ∉ config.MimeTypes (cfgConfig l)) /\
  (forall l, MatchMimeType reg mt = Some l ->
     l ∈ Lexers reg /\ mt ∈ config.MimeTypes (cfgConfig l) /\
     forall l', l' ∈ Lexers reg -> mt ∈ config.MimeTypes (cfgConfig l') ->
       (effectivePriority l' <= effectivePriority l)%Z).
Proof.
  unfold MatchMimeType.
  pose proof (mime_matched_elem reg mt) as Hel.
  destruct (flat_map _ (Lexers reg)) as [|b ls] eqn:Hm.
  - split; [|discriminate]. split; [|reflexivity]. intros _ l Hl Hmt.
    apply (elem_of_nil l), Hel. split; assumption.
  - split.
    + split; [discriminate|]. intros H. exfalso.
      destruct (proj1 (Hel b) ltac:(by left)) as [Hb Hmt]. exact (H b Hb Hmt).
    + intros l Hl. injection Hl as <-.
      destruct (proj1 (Hel _) (bestOf_in b ls)) as [Hin Hmt].
      split; [exact Hin|]. split; [exact Hmt|].
      intros l' Hl' Hmt'. apply bestOf_max, Hel. split; assumption.
Qed.

Lemma MatchMimeType_best_witness :
  MatchMimeType Examples.regThree "text/x-python" = Some Examples.pyLexer /\
  (Examples.pyLexer ∈ Lexers Examples.regThree /\
   "text/x-python" ∈ config.MimeTypes (cfgConfig Examples.pyLexer) /\
   forall l', l' ∈ Lexers Examples.regThree ->
     "text/x-python" ∈ config.MimeTypes (cfgConfig l') ->
     (effectivePriority l' <= effectivePriority Examples.pyLexer)%Z).
Proof.
  assert (H : MatchMimeType Examples.regThree "text/x-python" = Some Examples.pyLexer)
    by (vm_compute; reflexivity).
  split; [exact H|]. exact (proj2 (MatchMimeType_best _ _) _ H).
Defined.

Lemma string_le_total : Total string_le.
Proof.
  intros a b. unfold string_le.
  destruct (String.compare a b) eqn:E; [left; discriminate|left; discriminate|].
  right. rewrite String.compare_antisym, E. discriminate.
Qed.

(** X5: Names is sorted in byte order, and registering a lexer adds
    exactly its name, and its aliases when they are asked for, to it. *)
Theorem Names_sorted_register low reg lexer withAliases :
  Sorted string_le (Names reg withAliases) /\
  Names (fst (Register low reg lexer)) withAliases ≡ₚ
    (config.LexerName (cfgConfig lexer) ::
       (if withAliases then config.Aliases (cfgConfig lexer) else [])) ++
    Names reg withAliases.
Proof.
  split.
  - apply Sorted_merge_sort, string_le_total.
  - unfold Names, sort_Strings. rewrite !merge_sort_Permutation.
    cbn [Register fst Lexers]. rewrite flat_map_app. cbn [flat_map]. rewrite app_nil_r.
    apply Permutation_app_comm.
Qed.

(* ------------------------------------------------------------------ *)
(** ** More of the builder *)

Lemma mem_true x l : mem x l = true <-> x ∈ l.
Proof.
  unfold mem. rewrite existsb_exists, list_elem_of_In. split.
  - intros (y & Hy & E). apply String.eqb_eq in E. by subst y.
  - intros H. exists x. split; [exact H|apply String.eqb_refl].
Qed.

Lemma validate_missing_elem (sts : list config.State) x :
  x ∈ flat_map (fun st =>
        flat_map (fun cr =>
          match config.Push cr with
          | None => []
          | Some p =>
              if String.eqb p "" then []
              else if mem p (map config.Name sts) then [] else [p]
          end) (config.Rules st)) sts <->
  exists st cr, st ∈ sts /\ cr ∈ config.Rules st /\ config.Push cr = Some x /\ x <> "" /\
                x ∉ map config.Name sts.
Proof.
  rewrite list_elem_of_In, in_flat_map. split.
  - intros (st & Hst & Hin). apply in_flat_map in Hin as (cr & Hcr & Hin).
    destruct (config.Push cr) as [p|] eqn:Hp; [|destruct Hin].
    destruct (String.eqb p "") eqn:He; [destruct Hin|].
    destruct (mem p (map config.Name sts)) eqn:Hm; [destruct Hin|].
    destruct Hin as [<-|[]]. exists st, cr.
    rewrite !list_elem_of_In. split; [exact Hst|]. split; [exact Hcr|]. split; [exact Hp|].
    split; [by apply String.eqb_neq|]. intros Hx. apply list_elem_of_In, mem_true in Hx. congruence.
  - intros (st & cr & Hst & Hcr & Hp & Hne & Hx). exists st.
    split; [by apply list_elem_of_In|]. apply in_flat_map. exists cr.
    split; [by apply list_elem_of_In|]. rewrite Hp.
    apply String.eqb_neq in Hne. rewrite Hne.
    destruct (mem x (map config.Name sts)) eqn:Hm; [apply mem_true in Hm; contradiction|].
    by left.
Qed.

(** X6: validate returns nil exactly when a state is named root and
    every non-empty Push target names a configured state.  Its
    missing-states error lists, in rule order, the non-empty Push targets
    that name no configured state, and is never an empty list. *)
Theorem validate_ok_iff cfg :
  (validate cfg = None <->
     (exists st, st ∈ config.States cfg /\ config.Name st = "root") /\
     (forall st cr p, st ∈ config.States cfg -> cr ∈ config.Rules st ->
        config.Push cr = Some p -> p <> "" -> p ∈ map config.Name (config.States cfg))) /\
  (forall l, validate cfg = Some (EMissingStates l) ->
     l <> [] /\
     forall x, x ∈ l <->
       exists st cr, st ∈ config.States cfg /\ cr ∈ config.Rules st /\
         config.Push cr = Some x /\ x <> "" /\ x ∉ map config.Name (config.States cfg)).
Proof.
  unfold validate. cbv zeta.
  set (sts := config.States cfg).
  pose proof (validate_missing_elem sts) as Hel.
  set (missing := flat_map _ sts) in Hel |- *.
  assert (Hroot : existsb (fun s => String.eqb (config.Name s) "root") sts = true <->
                  exists st, st ∈ sts /\ config.Name st = "root").
  { rewrite existsb_exists. split.
    - intros (st & Hst & E). exists st. split; [by apply list_elem_of_In|by apply String.eqb_eq].
    - intros (st & Hst & E). exists st. split; [by apply list_elem_of_In|by apply String.eqb_eq]. }
  split.
  - destruct (existsb _ sts) eqn:Er; cbn [negb].
    + unfold makeMissingError. destruct missing as [|m ms] eqn:Hm.
      * split; [|intros _; reflexivity]. intros _. split; [by apply Hroot|].
        intros st cr p Hst Hcr Hp Hne.
        destruct (decide (p ∈ map config.Name sts)) as [Hin|Hnin]; [exact Hin|].
        exfalso. apply (elem_of_nil p), Hel. exists st, cr. auto.
      * split; [discriminate|]. intros [_ Hall]. exfalso.
        destruct (proj1 (Hel m) ltac:(by left)) as (st & cr & Hst & Hcr & Hp & Hne & Hnin).
        exact (Hnin (Hall st cr m Hst Hcr Hp Hne)).
    + split; [discriminate|]. intros [Hr _]. apply Hroot in Hr. congruence.
  - intros l. destruct (existsb _ sts); cbn [negb]; [|discriminate].
    unfold makeMissingError. destruct missing as [|m ms] eqn:Hm; [discriminate|].
    intros H. injection H as <-. split; [discriminate|]. exact Hel.
Qed.

Lemma validate_ok_iff_witness :
  validate Examples.cfgDanglingPush = Some (EMissingStates ["nowhere"]) /\
  (["nowhere"] <> [] /\
   forall x, x ∈ ["nowhere"] <->
     exists st cr, st ∈ config.States Examples.cfgDanglingPush /\ cr ∈ config.Rules st /\
       config.Push cr = Some x /\ x <> "" /\
       x ∉ map config.Name (config.States Examples.cfgDanglingPush)).
Proof.
  assert (H : validate Examples.cfgDanglingPush = Some (EMissingStates ["nowhere"]))
    by (vm_compute; reflexivity).
  split; [exact H|]. exact (proj2 (validate_ok_iff _) _ H).
Defined.

Lemma byGroupElements_ok es ges :
  byGroupElements es = Ok ges ->
  Forall2 (fun e ge => match e with
                       | config.BGToken t => ge_tok ge = TokenTypeString t /\ ge_useSelfState ge = ""
                       | config.BGUsingSelf s => ge = mkByGroupElement None s
                       | config.BGOther => ge = mkByGroupElement None ""
                       end) es ges.
Proof.
  revert ges. induction es as [|e es IH]; intros ges H.
  - cbn in H. injection H as <-. constructor.
  - destruct e as [t|s|]; cbn [byGroupElements] in H.
    + inv_bind H. inv_bind H. injection H as <-. constructor; [|exact (IH _ E0)].
      unfold tokenTypeString in E. destruct (TokenTypeString t); [|discriminate E].
      injection E as <-. split; reflexivity.
    + inv_bind H. injection H as <-. constructor; [reflexivity|exact (IH _ E)].
    + inv_bind H. injection H as <-. constructor; [reflexivity|exact (IH _ E)].
Qed.

Lemma byGroupElements_fail es :
  byGroupElements es <> OutOfFuel /\
  forall e, byGroupElements es = Panic e ->
    exists t, e = EBadTokenType t /\ TokenTypeString t = None /\ config.BGToken t ∈ es.
Proof.
  induction es as [|e0 es [IHo IHp]]; [split; [discriminate|intros e H; discriminate H]|].
  destruct e0 as [t|s|]; cbn [byGroupElements]; unfold tokenTypeString.
  - destruct (TokenTypeString t) eqn:Ht; cbn.
    + destruct (byGroupElements es) eqn:Hb; cbn; [split; discriminate| |congruence].
      split; [discriminate|]. intros e' H. injection H as <-.
      destruct (IHp e eq_refl) as (t' & -> & Ht' & Hin). exists t'. split; [reflexivity|].
      split; [exact Ht'|by right].
    + split; [discriminate|]. intros e H. injection H as <-. exists t. split; [reflexivity|].
      split; [exact Ht|by left].
  - destruct (byGroupElements es) eqn:Hb; cbn; [split; discriminate| |congruence].
    split; [discriminate|]. intros e' H. injection H as <-.
    destruct (IHp e eq_refl) as (t' & -> & Ht' & Hin). exists t'. split; [reflexivity|].
    split; [exact Ht'|by right].
  - destruct (byGroupElements es) eqn:Hb; cbn; [split; discriminate| |congruence].
    split; [discriminate|]. intros e' H. injection H as <-.
    destruct (IHp e eq_refl) as (t' & -> & Ht' & Hin). exists t'. split; [reflexivity|].
    split; [exact Ht'|by right].
Qed.

Lemma setRuleFieldsFrom_fields r cr r' :
  setRuleFieldsFrom r cr = Ok r' ->
  tok r' = match config.Token cr with Some t => TokenTypeString t | None => tok r end /\
  popDepth r' = match config.Pop cr with Some d => d | None => popDepth r end /\
  pushState r' = match config.Push cr with Some s => s | None => pushState r end /\
  include r' = match config.Include cr with Some s => s | None => include r end /\
  useSelfState r' = match config.UsingSelf cr with Some s => s | None => useSelfState r end /\
  exists ges, byGroups r' = byGroups r ++ ges /\
    Forall2 (fun e ge => match e with
                         | config.BGToken t => ge_tok ge = TokenTypeString t /\ ge_useSelfState ge = ""
                         | config.BGUsingSelf s => ge = mkByGroupElement None s
                         | config.BGOther => ge = mkByGroupElement None ""
                         end) (match config.ByGroups cr with Some es => es | None => [] end) ges.
Proof.
  destruct cr as [pat tk pu po inc cb bg us]. unfold setRuleFieldsFrom.
  cbn [config.Token config.Pop config.Push config.Include config.ByGroups config.UsingSelf].
  intros H.
  destruct tk as [t|].
  - unfold tokenTypeString in H. destruct (TokenTypeString t) as [typ|] eqn:Ht; [|discriminate H].
    cbn [mbind outcome_bind mret outcome_ret] in H.
    destruct bg as [es|].
    + destruct (byGroupElements es) as [ges| |] eqn:Hg; cbn in H; try discriminate H.
      injection H as <-.
      destruct po, pu, inc, us; cbn; (split; [reflexivity|]); repeat split;
        exists ges; (split; [reflexivity|exact (byGroupElements_ok _ _ Hg)]).
    + cbn in H. injection H as <-.
      destruct po, pu, inc, us; cbn; (split; [reflexivity|]); repeat split;
        exists []; rewrite ?app_nil_r; (split; [reflexivity|constructor]).
  - cbn [mbind outcome_bind mret outcome_ret] in H.
    destruct bg as [es|].
    + destruct (byGroupElements es) as [ges| |] eqn:Hg; cbn in H; try discriminate H.
      injection H as <-.
      destruct po, pu, inc, us; cbn; repeat split;
        exists ges; (split; [reflexivity|exact (byGroupElements_ok _ _ Hg)]).
    + cbn in H. injection H as <-.
      destruct po, pu, inc, us; cbn; repeat split;
        exists []; rewrite ?app_nil_r; (split; [reflexivity|constructor]).
Qed.

(** X7: when ruleSequence succeeds, it compiles the rules one for one
    and in order, and each compiled rule holds exactly what its config
    rule declares: the anchored pattern, the token type, the pop depth,
    the push target (a declared Push, else the combined state's name,
    else none), the include, the UsingSelf state, and one ByGroups
    element per declared one. *)
Theorem ruleSequence_fields acc crs rs :
  ruleSequence acc crs = Ok rs ->
  Forall2 (fun cr r =>
    pattern r = Some (mkRegexp (String.append "\A" (config.Pattern cr)) true (Some 250)) /\
    tok r = match config.Token cr with Some t => TokenTypeString t | None => None end /\
    popDepth r = match config.Pop cr with Some d => d | None => 0 end /\
    pushState r = match config.Push cr with
                  | Some s => s
                  | None => match config.Combined cr with
                            | Some c => combinedStateName c
                            | None => ""
                            end
                  end /\
    include r = match config.Include cr with Some s => s | None => "" end /\
    useSelfState r = match config.UsingSelf cr with Some s => s | None => "" end /\
    Forall2 (fun e ge => match e with
                         | config.BGToken t => ge_tok ge = TokenTypeString t /\ ge_useSelfState ge = ""
                         | config.BGUsingSelf s => ge = mkByGroupElement None s
                         | config.BGOther => ge = mkByGroupElement None ""
                         end) (match config.ByGroups cr with Some es => es | None => [] end)
            (byGroups r)) crs rs.
Proof.
  revert rs. induction crs as [|cr crs IH]; intros rs H.
  - cbn in H. injection H as <-. constructor.
  - cbn [ruleSequence] in H. cbv zeta in H. inv_bind H. inv_bind H. inv_bind H. inv_bind H.
    injection H as <-. constructor; [|exact (IH _ E2)].
    unfold makeRule, regexp2_Compile in E0.
    destruct (acc (String.append "\A" (config.Pattern cr))); [|discriminate E0].
    cbn in E0. injection E0 as <-.
    rewrite (setRuleFieldsFrom_pattern _ _ _ E1).
    destruct (setRuleFieldsFrom_fields _ _ _ E1) as (Ht & Hp & Hpu & Hi & Hu & ges & Hg & Hges).
    unfold updatePushForCombinedState in *.
    destruct (config.Combined cr); cbn in *;
      (split; [reflexivity|]); (split; [exact Ht|]); (split; [exact Hp|]);
      (split; [exact Hpu|]); (split; [exact Hi|]); (split; [exact Hu|]); rewrite Hg; exact Hges.
Qed.

Lemma ruleSequence_fields_witness :
  Forall2 (fun cr r =>
    pattern r = Some (mkRegexp (String.append "\A" (config.Pattern cr)) true (Some 250)) /\
    tok r = match config.Token cr with Some t => TokenTypeString t | None => None end /\
    popDepth r = match config.Pop cr with Some d => d | None => 0 end /\
    pushState r = match config.Push cr with
                  | Some s => s
                  | None => match config.Combined cr with
                            | Some c => combinedStateName c
                            | None => ""
                            end
                  end /\
    include r = match config.Include cr with Some s => s | None => "" end /\
    useSelfState r = match config.UsingSelf cr with Some s => s | None => "" end /\
    Forall2 (fun e ge => match e with
                         | config.BGToken t => ge_tok ge = TokenTypeString t /\ ge_useSelfState ge = ""
                         | config.BGUsingSelf s => ge = mkByGroupElement None s
                         | config.BGOther => ge = mkByGroupElement None ""
                         end) (match config.ByGroups cr with Some es => es | None => [] end)
            (byGroups r))
    Examples.seqRules Examples.seqCompiled.
Proof. apply (ruleSequence_fields Examples.anyPattern). vm_compute. reflexivity. Defined.

Lemma setRuleFieldsFrom_fail r cr :
  setRuleFieldsFrom r cr <> OutOfFuel /\
  forall e, setRuleFieldsFrom r cr = Panic e ->
    exists t, e = EBadTokenType t /\ TokenTypeString t = None /\
      (config.Token cr = Some t \/
       exists es, config.ByGroups cr = Some es /\ config.BGToken t ∈ es).
Proof.
  destruct cr as [pat tk pu po inc cb bg us]. unfold setRuleFieldsFrom.
  cbn [config.Token config.Pop config.Push config.Include config.ByGroups config.UsingSelf].
  assert (Hbg : forall r1 : rule,
    (match bg with
     | Some es => ges ← byGroupElements es; mret (set_byGroups r1 (byGroups r1 ++ ges))
     | None => mret r1
     end ≫= fun r2 => mret (match us with Some s => set_useSelfState r2 s | None => r2 end))
      <> OutOfFuel /\
    forall e, (match bg with
     | Some es => ges ← byGroupElements es; mret (set_byGroups r1 (byGroups r1 ++ ges))
     | None => mret r1
     end ≫= fun r2 => mret (match us with Some s => set_useSelfState r2 s | None => r2 end))
      = Panic e ->
    exists t, e = EBadTokenType t /\ TokenTypeString t = None /\
      exists es, bg = Some es /\ config.BGToken t ∈ es).
  { intros r1. destruct bg as [es|]; [|split; [discriminate|intros e H; discriminate H]].
    destruct (byGroupElements_fail es) as [Ho Hp].
    destruct (byGroupElements es) as [ges|e0|] eqn:Hg; cbn; [split; discriminate| |congruence].
    split; [discriminate|]. intros e H. injection H as <-.
    destruct (Hp e0 eq_refl) as (t & -> & Ht & Hin). exists t. eauto. }
  cbv zeta. destruct tk as [t|].
  - unfold tokenTypeString. destruct (TokenTypeString t) as [typ|] eqn:Ht; cbn [mbind outcome_bind].
    + split; [apply (proj1 (Hbg _))|].
      intros e H. destruct (proj2 (Hbg _) e H) as (t' & ? & ? & ?). eauto 6.
    + split; [discriminate|]. intros e H. injection H as <-. eauto.
  - cbn [mbind outcome_bind]. split; [apply (proj1 (Hbg _))|].
    intros e H. destruct (proj2 (Hbg _) e H) as (t' & ? & ? & ?). eauto 6.
Qed.

(** X8: ruleSequence never runs without end, and when it panics it is
    at the first rule that fails, after every rule before it compiled:
    with checkRule's error, with InvalidPattern for a pattern the regex
    engine rejects, or with an unknown token type the rule declares as
    its Token or in its ByGroups. *)
Theorem ruleSequence_first_failure acc crs :
  ruleSequence acc crs <> OutOfFuel /\
  forall e, ruleSequence acc crs = Panic e ->
  exists pre cr post, crs = pre ++ cr :: post /\ isOk (ruleSequence acc pre) = true /\
    (checkRule cr = Some e \/
     (checkRule cr = None /\ acc (String.append "\A" (config.Pattern cr)) = false /\
      e = EInvalidPattern (String.append "\A" (config.Pattern cr))) \/
     (checkRule cr = None /\ acc (String.append "\A" (config.Pattern cr)) = true /\
      exists t, e = EBadTokenType t /\ TokenTypeString t = None /\
        (config.Token cr = Some t \/
         exists es, config.ByGroups cr = Some es /\ config.BGToken t ∈ es))).
Proof.
  induction crs as [|cr crs [IHo IHp]].
  - split; [discriminate|intros e H; discriminate H].
  - cbn [ruleSequence]. cbv zeta. unfold check.
    destruct (checkRule cr) as [e0|] eqn:Hc; cbn [mbind outcome_bind].
    { split; [discriminate|]. intros e H. injection H as <-.
      exists [], cr, crs. split; [reflexivity|]. split; [reflexivity|]. by left. }
    unfold makeRule, regexp2_Compile.
    destruct (acc (String.append "\A" (config.Pattern cr))) eqn:Ha; cbn [mbind outcome_bind].
    2:{ split; [discriminate|]. intros e H. injection H as <-.
        exists [], cr, crs. split; [reflexivity|]. split; [reflexivity|]. right; left. auto. }
    cbn -[setRuleFieldsFrom ruleSequence updatePushForCombinedState].
    match goal with |- context [setRuleFieldsFrom ?r cr] => set (r1 := r) end.
    destruct (setRuleFieldsFrom_fail r1 cr) as [Ho Hp].
    destruct (setRuleFieldsFrom r1 cr) as [r2|e1|] eqn:Hs; cbn [mbind outcome_bind]; [|clear Ho|congruence].
    + destruct (ruleSequence acc crs) as [rs|e1|] eqn:Hrs; cbn [mbind outcome_bind];
        [split; discriminate| |congruence].
      split; [discriminate|]. intros e H. injection H as <-.
      destruct (IHp e1 eq_refl) as (pre & cr' & post & -> & Hpre & Hcase).
      exists (cr :: pre), cr', post. split; [reflexivity|]. split; [|exact Hcase].
      destruct (ruleSequence acc pre) as [rp| |] eqn:Hrp; [|discriminate Hpre|discriminate Hpre].
      cbn [ruleSequence]. cbv zeta. unfold check. rewrite Hc. cbn [mbind outcome_bind].
      unfold makeRule, regexp2_Compile. rewrite Ha.
      cbn -[setRuleFieldsFrom ruleSequence updatePushForCombinedState].
      fold r1. rewrite Hs. cbn [mbind outcome_bind]. rewrite Hrp. reflexivity.
    + split; [discriminate|]. intros e H. injection H as <-.
      exists [], cr, crs. split; [reflexivity|]. split; [reflexivity|]. right; right.
      split; [exact Hc|]. split; [exact Ha|]. exact (Hp e1 eq_refl).
Qed.

Lemma ruleSequence_first_failure_witness :
  ruleSequence Examples.anyPattern
    [Examples.tokRule "a" "Text"; Examples.tokRule "b" "Bogus"; Examples.tokRule "" "Text"] =
    Panic (EBadTokenType "Bogus") /\
  exists pre cr post,
    [Examples.tokRule "a" "Text"; Examples.tokRule "b" "Bogus"; Examples.tokRule "" "Text"] =
      pre ++ cr :: post /\ isOk (ruleSequence Examples.anyPattern pre) = true /\
    (checkRule cr = Some (EBadTokenType "Bogus") \/
     (checkRule cr = None /\ Examples.anyPattern (String.append "\A" (config.Pattern cr)) = false /\
      EBadTokenType "Bogus" = EInvalidPattern (String.append "\A" (config.Pattern cr))) \/
     (checkRule cr = None /\ Examples.anyPattern (String.append "\A" (config.Pattern cr)) = true /\
      exists t, EBadTokenType "Bogus" = EBadTokenType t /\ TokenTypeString t = None /\
        (config.Token cr = Some t \/
         exists es, config.ByGroups cr = Some es /\ config.BGToken t ∈ es))).
Proof.
  assert (H : ruleSequence Examples.anyPattern
    [Examples.tokRule "a" "Text"; Examples.tokRule "b" "Bogus"; Examples.tokRule "" "Text"] =
    Panic (EBadTokenType "Bogus")) by (vm_compute; reflexivity).
  split; [exact H|]. exact (proj2 (ruleSequence_first_failure _ _) _ H).
Defined.

Lemma combinedRules_all t sn l :
  (forall s, s ∈ l -> is_Some (t !! s)) -> combinedRules t sn l = Ok (concatStates t l).
Proof.
  induction l as [|s l IH]; intros H; [reflexivity|].
  cbn [combinedRules]. destruct (H s ltac:(by left)) as [st Hst]. rewrite Hst.
  rewrite IH; [|intros s' Hs'; apply H; by right].
  cbn [concatStates flat_map]. rewrite Hst. reflexivity.
Qed.

Lemma combinedRules_missing t sn l :
  (exists s, s ∈ l /\ t !! s = None) -> combinedRules t sn l = Panic (ECombinedMissing sn).
Proof.
  induction l as [|s l IH]; intros (s' & Hin & Hs'); [by apply elem_of_nil in Hin|].
  cbn [combinedRules]. destruct (t !! s) as [st|] eqn:Hst; [|reflexivity].
  apply elem_of_cons in Hin as [->|Hin]; [congruence|].
  rewrite IH; [reflexivity|eauto].
Qed.

(** X9: createCombinedStateInRule leaves the table as it is for a rule
    without Combined or when the synthesized name is already a state;
    otherwise it adds, under that name, the concatenation of the listed
    states' rules when they all exist, and panics when one is missing,
    with an error that names the state holding the rule, not the missing
    one. *)
Theorem createCombinedStateInRule_cases t sn cr :
  (config.Combined cr = None -> createCombinedStateInRule t sn cr = Ok t) /\
  forall c, config.Combined cr = Some c ->
   (is_Some (t !! combinedStateName c) -> createCombinedStateInRule t sn cr = Ok t) /\
   (t !! combinedStateName c = None -> (exists s, s ∈ c /\ t !! s = None) ->
      createCombinedStateInRule t sn cr = Panic (ECombinedMissing sn)) /\
   (t !! combinedStateName c = None -> (forall s, s ∈ c -> is_Some (t !! s)) ->
      createCombinedStateInRule t sn cr =
        Ok (<[combinedStateName c := mkStateS (combinedStateName c) (concatStates t c)]> t)).
Proof.
  unfold createCombinedStateInRule. cbv zeta. split.
  - intros Hc. rewrite Hc. reflexivity.
  - intros c Hc. rewrite Hc. split; [|split].
    + intros [v Hv]. rewrite Hv. reflexivity.
    + intros Hn Hm. rewrite Hn, combinedRules_missing by exact Hm. reflexivity.
    + intros Hn Hall. rewrite Hn, combinedRules_all by exact Hall. reflexivity.
Qed.

Lemma createCombinedStateInRule_cases_witness :
  createCombinedStateInRule ∅ "root" (Examples.combinedRule "x" ["a"; "b"]) =
    Panic (ECombinedMissing "root") /\
  createCombinedStateInRule Examples.tblIncludeChain "root" (Examples.combinedRule "x" ["B"; "C"]) =
    Ok (<[combinedStateName ["B"; "C"] :=
           mkStateS (combinedStateName ["B"; "C"])
             (concatStates Examples.tblIncludeChain ["B"; "C"])]> Examples.tblIncludeChain).
Proof.
  split.
  - apply (proj2 (createCombinedStateInRule_cases ∅ "root" (Examples.combinedRule "x" ["a"; "b"]))
             ["a"; "b"] eq_refl); [reflexivity|].
    exists "a". split; [by left|reflexivity].
  - apply (proj2 (createCombinedStateInRule_cases Examples.tblIncludeChain "root"
                    (Examples.combinedRule "x" ["B"; "C"])) ["B"; "C"] eq_refl);
      [vm_compute; reflexivity|].
    intros s Hs. apply elem_of_cons in Hs as [->|Hs]; [vm_compute; eauto|].
    apply elem_of_cons in Hs as [->|Hs]; [vm_compute; eauto|by apply elem_of_nil in Hs].
Defined.

Lemma string_append_cons c (s t : string) :
  String.append (String c s) t = String c (String.append s t).
Proof. reflexivity. Qed.

Lemma string_append_nil_l (t : string) : String.append EmptyString t = t.
Proof. reflexivity. Qed.

Lemma string_append_nil_r (s : string) : String.append s EmptyString = s.
Proof. induction s as [|c s IH]; [reflexivity|by rewrite string_append_cons, IH]. Qed.

Lemma string_append_cancel_l (p x y : string) :
  String.append p x = String.append p y -> x = y.
Proof.
  induction p as [|c p IH]; [done|]. rewrite !string_append_cons.
  intros H. injection H. apply IH.
Qed.

Lemma string_split_no_underscore (a b s1 s2 : string) :
  (forall n, String.get n a <> Some "_"%char) ->
  (forall n, String.get n b <> Some "_"%char) ->
  (s1 = EmptyString \/ exists r, s1 = String "_" r) ->
  (s2 = EmptyString \/ exists r, s2 = String "_" r) ->
  String.append a s1 = String.append b s2 -> a = b /\ s1 = s2.
Proof.
  revert b. induction a as [|c a IH]; intros [|d b] Ha Hb Hs1 Hs2 H;
    rewrite ?string_append_nil_l, ?string_append_cons in H.
  - done.
  - exfalso. subst s1. destruct Hs1 as [Hs1|[r Hr]]; [discriminate|].
    injection Hr as Hc _. apply (Hb 0). cbn. by rewrite Hc.
  - exfalso. subst s2. destruct Hs2 as [Hs2|[r Hr]]; [discriminate|].
    injection Hr as Hc _. apply (Ha 0). cbn. by rewrite Hc.
  - injection H as -> H.
    destruct (IH b (fun n => Ha (S n)) (fun n => Hb (S n)) Hs1 Hs2 H) as [-> ->].
    done.
Qed.

Lemma concat_cons_sepTail x l :
  String.concat "__" (x :: l) = String.append x (sepTail l).
Proof. destruct l; cbn [String.concat sepTail]; [by rewrite string_append_nil_r|reflexivity]. Qed.

Lemma concat_sep_injective (l1 l2 : list string) :
  Forall (fun s => s <> EmptyString /\ forall n, String.get n s <> Some "_"%char) l1 ->
  Forall (fun s => s <> EmptyString /\ forall n, String.get n s <> Some "_"%char) l2 ->
  String.concat "__" l1 = String.concat "__" l2 -> l1 = l2.
Proof.
  revert l2. induction l1 as [|a l1 IH]; intros [|b l2] H1 H2 H.
  - done.
  - exfalso. apply Forall_cons in H2 as [[Hb _] _].
    destruct b as [|c b]; [done|]. destruct l2; discriminate.
  - exfalso. apply Forall_cons in H1 as [[Ha _] _].
    destruct a as [|c a]; [done|]. destruct l1; discriminate.
  - apply Forall_cons in H1 as [[_ Ha] H1]. apply Forall_cons in H2 as [[_ Hb] H2].
    rewrite !concat_cons_sepTail in H.
    apply string_split_no_underscore in H as [-> Ht]; [|done|done| |].
    + f_equal. destruct l1 as [|x1 l1], l2 as [|x2 l2]; try done.
      apply IH; [done|done|]. cbn [sepTail] in Ht.
      by apply string_append_cancel_l in Ht.
    + destruct l1; [by left|right; eexists; reflexivity].
    + destruct l2; [by left|right; eexists; reflexivity].
Qed.

(** X10: the name synthesized for a combined state determines the list of
    states it combines, as long as every listed state name is nonempty and
    contains no underscore: two different lists of such names never share
    a combined state. *)
Theorem combinedStateName_injective (l1 l2 : list string) :
  Forall (fun s => s <> EmptyString /\ forall n, String.get n s <> Some "_"%char) l1 ->
  Forall (fun s => s <> EmptyString /\ forall n, String.get n s <> Some "_"%char) l2 ->
  combinedStateName l1 = combinedStateName l2 -> l1 = l2.
Proof.
  intros H1 H2 H. unfold combinedStateName in H.
  apply string_append_cancel_l in H. by apply concat_sep_injective.
Qed.

Lemma combinedStateName_injective_witness :
  combinedStateName ["ab"; "c"] <> combinedStateName ["a"; "bc"].
Proof.
  intros H. apply combinedStateName_injective in H; [discriminate| |];
    repeat constructor;
    first [discriminate | intros [|[|[|n]]]; cbn; discriminate].
Defined.

Lemma addStates_keys_iff acc t sts t' :
  addStates acc t sts = Ok t' ->
  forall k, is_Some (t' !! k) <-> is_Some (t !! k) \/ k ∈ map config.Name sts.
Proof.
  revert t. induction sts as [|st sts IH]; intros t H k.
  - cbn in H. injection H as <-. cbn [map]. rewrite elem_of_nil. tauto.
  - cbn [addStates] in H. inv_bind H. rewrite (IH _ H k).
    unfold AddState. cbn [name map]. rewrite elem_of_cons, lookup_insert.
    case_decide as Heq.
    + subst k. split; intros _; [right; by left|left; by eexists].
    + split; [intros [Hk|Hk]; tauto|].
      intros [Hk|[Hk|Hk]]; [tauto|congruence|tauto].
Qed.

Lemma createCombinedStateInRule_keys t sn cr t' :
  createCombinedStateInRule t sn cr = Ok t' ->
  forall k, is_Some (t' !! k) <->
    is_Some (t !! k) \/ exists l, config.Combined cr = Some l /\ k = combinedStateName l.
Proof.
  intros H k. unfold createCombinedStateInRule in H. cbv zeta in H.
  destruct (config.Combined cr) as [l|] eqn:Ec.
  2:{ injection H as <-. split; [tauto|]. intros [Hk|(l & Hl & _)]; [exact Hk|discriminate]. }
  destruct (t !! combinedStateName l) as [v|] eqn:En.
  - injection H as <-. split; [tauto|].
    intros [Hk|(l' & Hl & ->)]; [exact Hk|]. injection Hl as <-. rewrite En. by eexists.
  - inv_bind H. injection H as <-. unfold AddState. cbn [name]. rewrite lookup_insert.
    case_decide as Heq.
    + subst k. split; [intros _; right; eauto|intros _; by eexists].
    + split; [tauto|]. intros [Hk|(l' & Hl & ->)]; [exact Hk|]. injection Hl as <-. done.
Qed.

Lemma createCombinedStates_keys t sn crs t' :
  createCombinedStates t sn crs = Ok t' ->
  forall k, is_Some (t' !! k) <->
    is_Some (t !! k) \/ exists cr l, cr ∈ crs /\ config.Combined cr = Some l /\ k = combinedStateName l.
Proof.
  revert t. induction crs as [|cr crs IH]; intros t H k.
  - cbn in H. injection H as <-. split; [tauto|].
    intros [Hk|(cr & l & Hin & _)]; [exact Hk|by apply elem_of_nil in Hin].
  - cbn [createCombinedStates] in H. inv_bind H.
    rewrite (IH _ H k), (createCombinedStateInRule_keys _ _ _ _ E k). split.
    + intros [[Hk|(l & Hl & ->)]|(cr' & l & Hin & Hl & ->)]; [tauto| |].
      * right. exists cr, l. split; [by left|auto].
      * right. exists cr', l. split; [by right|auto].
    + intros [Hk|(cr' & l & Hin & Hl & ->)]; [tauto|].
      apply elem_of_cons in Hin as [->|Hin]; [left; right; eauto|].
      right. exists cr', l. auto.
Qed.

Lemma addCombinedStates_keys t sts t' :
  addCombinedStates t sts = Ok t' ->
  forall k, is_Some (t' !! k) <->
    is_Some (t !! k) \/ exists st cr l, st ∈ sts /\ cr ∈ config.Rules st /\
                                  config.Combined cr = Some l /\ k = combinedStateName l.
Proof.
  revert t. induction sts as [|st sts IH]; intros t H k.
  - cbn in H. injection H as <-. split; [tauto|].
    intros [Hk|(st & cr & l & Hin & _)]; [exact Hk|by apply elem_of_nil in Hin].
  - cbn [addCombinedStates] in H. inv_bind H.
    rewrite (IH _ H k), (createCombinedStates_keys _ _ _ _ E k). split.
    + intros [[Hk|(cr & l & Hin & Hl & ->)]|(st' & cr & l & Hin & Hcr & Hl & ->)]; [tauto| |].
      * right. exists st, cr, l. split; [by left|auto].
      * right. exists st', cr, l. split; [by right|auto].
    + intros [Hk|(st' & cr & l & Hin & Hcr & Hl & ->)]; [tauto|].
      apply elem_of_cons in Hin as [->|Hin]; [left; right; eauto|].
      right. exists st', cr, l. auto.
Qed.

(** X11: the table that build makes has exactly the configured states'
    names and the synthesized names of the combined states the rules
    declare as keys. *)
Theorem build_keys acc cfg t :
  build acc cfg = Ok t ->
  forall k, is_Some (t !! k) <->
    k ∈ map config.Name (config.States cfg) \/
    exists l, l ∈ configCombineds cfg /\ k = combinedStateName l.
Proof.
  unfold build. intros H k. inv_bind H.
  rewrite (addCombinedStates_keys _ _ _ H k), (addStates_keys_iff _ _ _ _ E k).
  rewrite lookup_empty. split.
  - intros [[[? Hn]|Hk]|(st & cr & l & Hst & Hcr & Hl & ->)]; [discriminate|tauto|].
    right. exists l. split; [exact (configCombineds_in _ _ _ _ Hst Hcr Hl)|reflexivity].
  - intros [Hk|(l & Hl & ->)]; [tauto|].
    destruct (configCombineds_declared _ _ Hl) as (st & cr & Hst & Hcr & Hc).
    right. exists st, cr, l. auto.
Qed.

Lemma build_keys_witness :
  match build Examples.anyPattern Examples.cfgCombined with
  | Ok t => is_Some (t !! "__combined_a__b") /\ t !! "__combined_b__a" = None
  | _ => False
  end.
Proof.
  destruct (build Examples.anyPattern Examples.cfgCombined) as [t|e|] eqn:E;
    [|vm_compute in E; discriminate|vm_compute in E; discriminate].
  split.
  - apply (build_keys _ _ _ E). right. exists ["a"; "b"]. split; [|vm_compute; reflexivity].
    change (["a"; "b"] ∈ [["a"; "b"]; ["a"; "b"]]). apply elem_of_cons. by left.
  - destruct (t !! "__combined_b__a") as [v|] eqn:Ek; [exfalso|reflexivity].
    assert (Hs : is_Some (t !! "__combined_b__a")) by (rewrite Ek; by eexists).
    apply (build_keys _ _ _ E) in Hs as [Hin|(l & Hl & Heq)].
    + change ("__combined_b__a" ∈ ["root"; "a"; "b"]) in Hin.
      repeat (apply elem_of_cons in Hin as [Hin|Hin]; [discriminate|]).
      by apply elem_of_nil in Hin.
    + change (l ∈ [["a"; "b"]; ["a"; "b"]]) in Hl.
      repeat (apply elem_of_cons in Hl as [->|Hl]; [vm_compute in Heq; discriminate|]).
      by apply elem_of_nil in Hl.
Defined.

Lemma AddState_named t s :
  (forall k st, t !! k = Some st -> name st = k) ->
  forall k st, AddState s t !! k = Some st -> name st = k.
Proof.
  intros Ht k st. unfold AddState. rewrite lookup_insert. case_decide as Heq.
  - intros Hs. injection Hs as <-. exact Heq.
  - apply Ht.
Qed.

Lemma addStates_named acc t sts t' :
  addStates acc t sts = Ok t' ->
  (forall k st, t !! k = Some st -> name st = k) ->
  forall k st, t' !! k = Some st -> name st = k.
Proof.
  revert t. induction sts as [|st0 sts IH]; intros t H Ht.
  - cbn in H. injection H as <-. exact Ht.
  - cbn [addStates] in H. inv_bind H. exact (IH _ H (AddState_named _ _ Ht)).
Qed.

Lemma createCombinedStateInRule_named t sn cr t' :
  createCombinedStateInRule t sn cr = Ok t' ->
  (forall k st, t !! k = Some st -> name st = k) ->
  forall k st, t' !! k = Some st -> name st = k.
Proof.
  intros H Ht. unfold createCombinedStateInRule in H. cbv zeta in H.
  destruct (config.Combined cr) as [l|]; [|injection H as <-; exact Ht].
  destruct (t !! combinedStateName l); [injection H as <-; exact Ht|].
  inv_bind H. injection H as <-. exact (AddState_named _ _ Ht).
Qed.

Lemma createCombinedStates_named t sn crs t' :
  createCombinedStates t sn crs = Ok t' ->
  (forall k st, t !! k = Some st -> name st = k) ->
  forall k st, t' !! k = Some st -> name st = k.
Proof.
  revert t. induction crs as [|cr crs IH]; intros t H Ht.
  - cbn in H. injection H as <-. exact Ht.
  - cbn [createCombinedStates] in H. inv_bind H.
    exact (IH _ H (createCombinedStateInRule_named _ _ _ _ E Ht)).
Qed.

Lemma addCombinedStates_named t sts t' :
  addCombinedStates t sts = Ok t' ->
  (forall k st, t !! k = Some st -> name st = k) ->
  forall k st, t' !! k = Some st -> name st = k.
Proof.
  revert t. induction sts as [|st0 sts IH]; intros t H Ht.
  - cbn in H. injection H as <-. exact Ht.
  - cbn [addCombinedStates] in H. inv_bind H.
    exact (IH _ H (createCombinedStates_named _ _ _ _ E Ht)).
Qed.

Lemma build_named acc cfg t :
  build acc cfg = Ok t -> forall k st, t !! k = Some st -> name st = k.
Proof.
  unfold build. intros H. inv_bind H.
  apply (addCombinedStates_named _ _ _ H), (addStates_named _ _ _ _ E).
  intros k st Hk. by rewrite lookup_empty in Hk.
Qed.

Lemma resolve_include_free f t rs v :
  resolveIncludesIn f t rs = Ok v -> (forall r, r ∈ rs -> include r = "") -> v = rs.
Proof.
  destruct f as [|f]; [discriminate|].
  revert v. induction rs as [|rl rs IH]; intros v H Hinc.
  - rewrite resolve_nil in H. by injection H as <-.
  - rewrite resolve_cons in H.
    rewrite (Hinc rl ltac:(by left)) in H. cbn [String.eqb] in H.
    inv_bind H. injection H as <-. f_equal.
    apply IH; [exact E|]. intros r Hr. apply Hinc. by right.
Qed.

(** X12: when Build returns a lexer, its table has the same keys as the
    table build made before include resolution, every entry is stored
    under its own name, and when no rule of that table has an Include,
    resolution leaves the table exactly as build made it. *)
Theorem Build_table acc fuel cfg l e :
  snd (Build acc fuel cfg) = Ok (l, e) ->
  exists t, build acc cfg = Ok t /\
    (forall k, is_Some (lrules l !! k) <-> is_Some (t !! k)) /\
    (forall k st, lrules l !! k = Some st -> name st = k) /\
    ((forall k st r, t !! k = Some st -> r ∈ rules st -> include r = "") -> lrules l = t).
Proof.
  intros H. destruct (Build_snd_Ok _ _ _ _ _ H) as (t & t' & Hb & Hr & -> & _).
  exists t. cbn [lrules]. split; [exact Hb|]. split; [|split].
  - intros k. split.
    + intros [st' Hk]. destruct (resolveIncludes_inv _ _ _ _ _ Hr Hk) as (st & Hst & _). by eexists.
    + intros [st Hk]. destruct (resolveIncludes_fwd _ _ _ _ _ Hr Hk) as (l' & _ & Hk'). by eexists.
  - intros k st' Hk. destruct (resolveIncludes_inv _ _ _ _ _ Hr Hk) as (st & Hst & _).
    destruct (resolveIncludes_fwd _ _ _ _ _ Hr Hst) as (l' & _ & Hk').
    rewrite Hk in Hk'. injection Hk' as ->. cbn [name].
    exact (build_named _ _ _ Hb _ _ Hst).
  - intros Hinc. apply map_eq. intros k. destruct (t !! k) as [st|] eqn:Hst.
    + destruct (resolveIncludes_fwd _ _ _ _ _ Hr Hst) as (l' & Hl' & Hk').
      rewrite Hk'. apply resolve_include_free in Hl'; [|exact (fun r => Hinc k st r Hst)].
      subst l'. by destruct st.
    + destruct (t' !! k) as [st'|] eqn:Hk; [|reflexivity].
      destruct (resolveIncludes_inv _ _ _ _ _ Hr Hk) as (st & Hst' & _). congruence.
Qed.

Lemma Build_table_witness :
  match snd (Build Examples.anyPattern 5 Examples.cfgIncludeChain) with
  | Ok (l, _) => forall k st, lrules l !! k = Some st -> name st = k
  | _ => False
  end.
Proof.
  destruct (snd (Build Examples.anyPattern 5 Examples.cfgIncludeChain)) as [[l e]|err|] eqn:E;
    [|vm_compute in E; discriminate|vm_compute in E; discriminate].
  destruct (Build_table _ _ _ _ _ E) as (t & _ & _ & Hn & _). exact Hn.
Defined.
